(** * AiHelpDesk: the two relay routes and the chat page

    A shallow embedding of
      - the chat relay route, [POST /api/chat]      (module [ChatRoute]),
      - the vision relay route, [POST /api/vision]  (module [VisionRoute]),
      - the chat page, in its version with a provider-format history,
        local-storage persistence and screen sharing  (module [Page]),
    together with the small part of the JavaScript runtime they rely on
    (module [JS]: JSON values, truthiness, property reads, exceptions) and of
    the web platform (module [Web]: files, form data, base64). *)

From Stdlib Require Import ZArith Ascii.
From Stdlib.Strings Require Byte.
From stdpp Require Import base option list strings gmap pretty.

Set Warnings "-register-all".

Local Open Scope Z_scope.
Local Open Scope string_scope.
Local Open Scope list_scope.

(** ** JavaScript values and completions *)

Module JS.

(** Values exchanged with the outside world are JSON values.  A JavaScript
    value is [option JSON], [None] standing for [undefined].  Numbers are only
    ever tested for truthiness by the handlers, so integers suffice. *)
Inductive JSON : Type :=
| JNull
| JBool (b : bool)
| JNum (n : Z)
| JStr (s : string)
| JArr (items : list JSON)
| JObj (props : list (string * JSON)).

Abbreviation undefined := (@None JSON).

(** ToBoolean *)
Definition truthy (j : JSON) : bool :=
  match j with
  | JNull => false
  | JBool b => b
  | JNum n => negb (n =? 0)%Z
  | JStr s => negb (String.eqb s "")
  | JArr _ | JObj _ => true
  end.

Definition ToBoolean (v : option JSON) : bool :=
  match v with
  | None => false
  | Some j => truthy j
  end.

(** [v || d] for a right operand that is a defined value. *)
Definition or_else (v : option JSON) (d : JSON) : JSON :=
  match v with
  | Some j => if truthy j then j else d
  | None => d
  end.

(** [v || w] in general. *)
Definition or_value (v w : option JSON) : option JSON :=
  if ToBoolean v then v else w.

Definition nullish (v : option JSON) : bool :=
  match v with
  | None | Some JNull => true
  | Some _ => false
  end.

Definition Array_isArray (v : option JSON) : bool :=
  match v with
  | Some (JArr _) => true
  | _ => false
  end.

(** [v.length === 0], for [v] an array. *)
Definition length_is_zero (v : option JSON) : bool :=
  match v with
  | Some (JArr items) => (length items =? 0)%nat
  | _ => false
  end.

(** An object literal as it is serialised: a property whose value is
    [undefined] is left out. *)
Fixpoint object (props : list (string * option JSON)) : list (string * JSON) :=
  match props with
  | [] => []
  | (k, Some v) :: rest => (k, v) :: object rest
  | (_, None) :: rest => object rest
  end.

(** Own property of an object, first binding of the key. *)
Fixpoint lookup_prop (p : string) (props : list (string * JSON)) : option JSON :=
  match props with
  | [] => None
  | (k, v) :: rest => if String.eqb k p then Some v else lookup_prop p rest
  end.

(** [j.p] for a value [j] that is neither [null] nor [undefined], and a
    property name [p] that is not an array index. *)
Definition get_prop (j : JSON) (p : string) : option JSON :=
  match j with
  | JObj props => lookup_prop p props
  | JArr items =>
      if String.eqb p "length" then Some (JNum (Z.of_nat (length items))) else None
  | JStr s =>
      if String.eqb p "length" then Some (JNum (Z.of_nat (String.length s))) else None
  | _ => None
  end.

(** [j[i]] for a value [j] that is neither [null] nor [undefined]. *)
Definition get_elem (j : JSON) (i : nat) : option JSON :=
  match j with
  | JArr items => items !! i
  | JStr s =>
      match String.get i s with
      | Some c => Some (JStr (String c ""))
      | None => None
      end
  | JObj props => lookup_prop (pretty i) props
  | _ => None
  end.

(** How a piece of code ends: with a value, or by throwing one. *)
Inductive Completion (A : Type) : Type :=
| Normal (a : A)
| Throw (e : option JSON).
Arguments Normal {A} a.
Arguments Throw {A} e.

#[export] Instance Completion_ret : MRet Completion := λ A a, Normal a.

#[export] Instance Completion_bind : MBind Completion := λ A B f c,
  match c with
  | Normal a => f a
  | Throw e => Throw e
  end.

Definition show_nullish (v : option JSON) : string :=
  match v with
  | None => "undefined"
  | Some _ => "null"
  end.

(** An Error object is represented by its [message] property.  The text of a
    TypeError is the one V8 produces. *)
Definition Error (message : string) : option JSON :=
  Some (JObj [("message", JStr message)]).

Definition TypeError_read (v : option JSON) (key : string) : option JSON :=
  Error ("Cannot read properties of " +:+ show_nullish v
         +:+ " (reading '" +:+ key +:+ "')").

(** [v.p]: throws on [null] and [undefined]. *)
Definition member (v : option JSON) (p : string) : Completion (option JSON) :=
  match v with
  | None | Some JNull => Throw (TypeError_read v p)
  | Some j => Normal (get_prop j p)
  end.

(** [v[i]]: throws on [null] and [undefined]. *)
Definition element (v : option JSON) (i : nat) : Completion (option JSON) :=
  match v with
  | None | Some JNull => Throw (TypeError_read v (pretty i))
  | Some j => Normal (get_elem j i)
  end.

(** [v?.p] *)
Definition opt_member (v : option JSON) (p : string) : option JSON :=
  match v with
  | None | Some JNull => undefined
  | Some j => get_prop j p
  end.

(** *** Effects of a route handler

    A handler may call the provider; the calls it makes are logged, in order,
    next to its completion. *)
Definition Eff (A : Type) : Type := Completion A * list JSON.

#[export] Instance Eff_ret : MRet Eff := λ A a, (Normal a, []).

#[export] Instance Eff_bind : MBind Eff := λ A B f m,
  match m with
  | (Normal a, calls) => let '(c, calls') := f a in (c, calls ++ calls')
  | (Throw e, calls) => (Throw e, calls)
  end.

Definition lift {A} (c : Completion A) : Eff A := (c, []).

(** [try { m } catch (err) { h err }] *)
Definition try_catch {A} (m : Eff A) (h : option JSON → Eff A) : Eff A :=
  match m with
  | (Normal a, calls) => (Normal a, calls)
  | (Throw e, calls) => let '(c, calls') := h e in (c, calls ++ calls')
  end.

(** The provider: what [openai.chat.completions.create] does with a payload. *)
Definition Provider : Type := JSON → Completion JSON.

Definition chat_completions_create (openai : Provider) (payload : JSON) : Eff JSON :=
  (openai payload, [payload]).

(** An HTTP response built by [NextResponse.json]. *)
Record Response : Type := mkResponse { status : Z; body : JSON }.

Definition NextResponse_json (body : JSON) (status : Z) : Response :=
  mkResponse status body.

End JS.

Import JS.

(** ** The chat relay route *)

Module ChatRoute.

(** [POST req]: [req_json] is the outcome of [req.json()]. *)
Definition POST (openai : Provider) (req_json : Completion JSON) : Eff Response :=
  try_catch
    (body ← lift req_json;
     messages ← lift (member (Some body) "messages");
     if negb (Array_isArray messages) || length_is_zero messages then
       mret (NextResponse_json (JObj [("error", JStr "No messages provided.")]) 400)
     else
       response ← chat_completions_create openai
         (JObj (object [("model", Some (JStr "gpt-4o"));
                        ("messages", messages);
                        ("max_tokens", Some (JNum 500))]));
       choices ← lift (member (Some response) "choices");
       first ← lift (element choices 0);
       let aiMessage :=
         or_else (opt_member (opt_member first "message") "content")
                 (JStr "Sorry, I couldn't generate a response.") in
       mret (NextResponse_json (JObj [("result", aiMessage)]) 200))
    (λ err,
       message ← lift (member err "message");
       mret (NextResponse_json
               (JObj [("error", or_else message (JStr "Unknown error"))]) 500)).

End ChatRoute.

(** ** Multipart form data *)

Module Web.

(** A [File] (a [Blob] with a name): its MIME type and its bytes. *)
Record File : Type := mkFile {
  file_name : string;
  file_type : string;
  file_bytes : list Byte.byte
}.

Record Blob : Type := mkBlob {
  blob_type : string;
  blob_bytes : list Byte.byte
}.

Definition File_blob (f : File) : Blob := mkBlob (file_type f) (file_bytes f).

(** The [File] that [formData.append(name, blob, filename)] stores. *)
Definition File_of_Blob (filename : string) (b : Blob) : File :=
  mkFile filename (blob_type b) (blob_bytes b).

Inductive FormDataEntryValue : Type :=
| FString (s : string)
| FFile (f : File).

(** The entries of a [FormData], in the order they were appended. *)
Definition FormData : Type := list (string * FormDataEntryValue).

Definition FormData_append (name : string) (v : FormDataEntryValue)
    (fd : FormData) : FormData :=
  fd ++ [(name, v)].

(** [formData.get(name)]: the first entry of that name, or [null]. *)
Fixpoint FormData_get (name : string) (fd : FormData) : option FormDataEntryValue :=
  match fd with
  | [] => None
  | (k, v) :: rest => if String.eqb k name then Some v else FormData_get name rest
  end.

(** ToBoolean of what [formData.get] returned. *)
Definition entry_truthy (e : option FormDataEntryValue) : bool :=
  match e with
  | None => false
  | Some (FString s) => negb (String.eqb s "")
  | Some (FFile _) => true
  end.

Definition instanceof_Blob (e : option FormDataEntryValue) : bool :=
  match e with
  | Some (FFile _) => true
  | _ => false
  end.

(** An entry as it is serialised inside a JSON payload: a [File] has no
    enumerable property of its own. *)
Definition entry_json (e : FormDataEntryValue) : JSON :=
  match e with
  | FString s => JStr s
  | FFile _ => JObj []
  end.

(** [Buffer.toString("base64")] *)
Definition base64_digit (n : N) : ascii :=
  if (n <? 26)%N then ascii_of_N (65 + n)
  else if (n <? 52)%N then ascii_of_N (97 + (n - 26))
  else if (n <? 62)%N then ascii_of_N (48 + (n - 52))
  else if (n =? 62)%N then "+"%char
  else "/"%char.

Fixpoint base64 (bs : list Byte.byte) : string :=
  match bs with
  | [] => ""
  | [a] =>
      let x := Byte.to_N a in
      String (base64_digit (x / 4))
        (String (base64_digit ((x mod 4) * 16)) "==")
  | [a; b] =>
      let x := Byte.to_N a in
      let y := Byte.to_N b in
      String (base64_digit (x / 4))
        (String (base64_digit ((x mod 4) * 16 + y / 16))
           (String (base64_digit ((y mod 16) * 4)) "="))
  | a :: b :: c :: rest =>
      let x := Byte.to_N a in
      let y := Byte.to_N b in
      let z := Byte.to_N c in
      String (base64_digit (x / 4))
        (String (base64_digit ((x mod 4) * 16 + y / 16))
           (String (base64_digit ((y mod 16) * 4 + z / 64))
              (String (base64_digit (z mod 64)) (base64 rest))))
  end.

End Web.

Import Web.

(** ** The vision relay route, app/api/vision/route.ts *)

Module VisionRoute.

Definition system_prompt : string :=
  "You are a helpful IT support assistant for non-technical users. Explain things simply and step by step.".

(** The payload sent to the provider for an image [file] and a [prompt]. *)
Definition vision_payload (file : File) (prompt : FormDataEntryValue) : JSON :=
  JObj
    [("model", JStr "gpt-4o");
     ("messages",
       JArr
         [JObj [("role", JStr "system"); ("content", JStr system_prompt)];
          JObj
            [("role", JStr "user");
             ("content",
               JArr
                 [JObj [("type", JStr "text"); ("text", entry_json prompt)];
                  JObj
                    [("type", JStr "image_url");
                     ("image_url",
                       JObj
                         [("url",
                           JStr ("data:" +:+ file_type file +:+ ";base64,"
                                 +:+ base64 (file_bytes file)))])]])]]);
     ("max_tokens", JNum 500)].

(** [POST req]: [req_formData] is the outcome of [req.formData()].  The guard
    [!file || !(file instanceof Blob)] lets through exactly the entries that
    are files; [!prompt] lets through every entry but [null] and the empty
    string. *)
Definition POST (openai : Provider) (req_formData : Completion FormData)
    : Eff Response :=
  try_catch
    (formData ← lift req_formData;
     let file := FormData_get "image" formData in
     let prompt := FormData_get "prompt" formData in
     if negb (entry_truthy file) || negb (instanceof_Blob file) then
       mret (NextResponse_json (JObj [("error", JStr "No image uploaded.")]) 400)
     else if negb (entry_truthy prompt) then
       mret (NextResponse_json (JObj [("error", JStr "No prompt provided.")]) 400)
     else
       match file, prompt with
       | Some (FFile f), Some p =>
           response ← chat_completions_create openai (vision_payload f p);
           choices ← lift (member (Some response) "choices");
           first ← lift (element choices 0);
           let aiMessage :=
             or_else (opt_member (opt_member first "message") "content")
                     (JStr "Sorry, I couldn't analyze the screenshot.") in
           mret (NextResponse_json (JObj [("result", aiMessage)]) 200)
       | _, _ =>
           (* excluded by the two guards above *)
           mret (NextResponse_json (JObj [("error", JStr "No image uploaded.")]) 400)
       end)
    (λ err,
       message ← lift (member err "message");
       mret (NextResponse_json
               (JObj [("error", or_else message (JStr "Unknown error"))]) 500)).

End VisionRoute.

(** ** The chat page *)

Module Page.

Inductive Sender : Type := sender_user | sender_ai.

Record Message : Type := mkMessage {
  sender : Sender;
  text : JSON;
  imageUrl : option string
}.

Inductive Role : Type := role_system | role_user | role_assistant.

Record OpenAIMessage : Type := mkOpenAIMessage {
  role : Role;
  content : JSON
}.

(** *** Screen capture: tracks, streams and what happened to them *)

Inductive TrackKind : Type := video_track | audio_track.

Record Track : Type := mkTrack { track_id : nat; track_kind : TrackKind }.

Record MediaStream : Type := mkMediaStream { getTracks : list Track }.

Definition is_video (t : Track) : bool :=
  match track_kind t with
  | video_track => true
  | audio_track => false
  end.

Definition getVideoTracks (s : MediaStream) : list Track :=
  filter (λ t, is_video t = true) (getTracks s).

(** What was done to the tracks, oldest first: the page called [stop()] on a
    track, or the browser ended it (the user dismissed the share). *)
Inductive MediaEvent : Type :=
| stop_called (id : nat)
| ended_by_browser (id : nat).

Definition event_track (e : MediaEvent) : nat :=
  match e with
  | stop_called id => id
  | ended_by_browser id => id
  end.

Definition is_stop_call (id : nat) (e : MediaEvent) : bool :=
  match e with
  | stop_called id' => (id' =? id)%nat
  | ended_by_browser _ => false
  end.

Abbreviation Media := (list MediaEvent).

(** How many times track [id] was released, by either party. *)
Definition release_count (id : nat) (m : Media) : nat :=
  length (filter (λ e, event_track e = id) m).

(** How many times the page called [stop()] on track [id]. *)
Definition stop_calls (id : nat) (m : Media) : nat :=
  length (filter (λ e, is_stop_call id e = true) m).

(** [readyState === "ended"] *)
Definition ended (id : nat) (m : Media) : bool :=
  bool_decide (release_count id m ≠ 0%nat).

Definition track_stop (t : Track) (m : Media) : Media :=
  m ++ [stop_called (track_id t)].

(** The [<video>] element behind [videoRef.current]. *)
Record VideoElement : Type := mkVideoElement { srcObject : option MediaStream }.

(** *** Component state *)

Record State : Type := mkState {
  messages : list Message;
  input : string;
  image : option File;
  isLoading : bool;
  screenStream : option MediaStream;
  isScreenSharing : bool;
  chatHistory : list OpenAIMessage;
  videoRef : option VideoElement
}.

Definition setMessages (f : list Message → list Message) (st : State) : State :=
  mkState (f (messages st)) (input st) (image st) (isLoading st)
          (screenStream st) (isScreenSharing st) (chatHistory st) (videoRef st).

Definition setInput (v : string) (st : State) : State :=
  mkState (messages st) v (image st) (isLoading st)
          (screenStream st) (isScreenSharing st) (chatHistory st) (videoRef st).

Definition setImage (v : option File) (st : State) : State :=
  mkState (messages st) (input st) v (isLoading st)
          (screenStream st) (isScreenSharing st) (chatHistory st) (videoRef st).

Definition setIsLoading (v : bool) (st : State) : State :=
  mkState (messages st) (input st) (image st) v
          (screenStream st) (isScreenSharing st) (chatHistory st) (videoRef st).

Definition setScreenStream (v : option MediaStream) (st : State) : State :=
  mkState (messages st) (input st) (image st) (isLoading st)
          v (isScreenSharing st) (chatHistory st) (videoRef st).

Definition setIsScreenSharing (v : bool) (st : State) : State :=
  mkState (messages st) (input st) (image st) (isLoading st)
          (screenStream st) v (chatHistory st) (videoRef st).

Definition setChatHistory (v : list OpenAIMessage) (st : State) : State :=
  mkState (messages st) (input st) (image st) (isLoading st)
          (screenStream st) (isScreenSharing st) v (videoRef st).

Definition set_videoRef (v : option VideoElement) (st : State) : State :=
  mkState (messages st) (input st) (image st) (isLoading st)
          (screenStream st) (isScreenSharing st) (chatHistory st) v.

Definition system_prompt : string :=
  "You are a helpful IT support assistant for non-technical users. Explain things simply and step by step.".

Definition system_turn : OpenAIMessage :=
  mkOpenAIMessage role_system (JStr system_prompt).

(** The values [useState] is given. *)
Definition initial_state : State :=
  mkState [] "" None false None false [system_turn] None.

(** Rendering mounts the [<video>] element exactly while sharing; a newly
    mounted element has no [srcObject]. *)
Definition render (st : State) : State :=
  if isScreenSharing st then
    match videoRef st with
    | Some _ => st
    | None => set_videoRef (Some (mkVideoElement None)) st
    end
  else set_videoRef None st.

(** *** Persistence in localStorage

    A stored string matters only through what [JSON.parse] makes of it, so it
    is kept as that: the text of a JSON value, or some other text. *)

Inductive Stored : Type :=
| json_text (v : JSON)
| other_text (s : string).

Definition JSON_stringify (v : JSON) : Stored := json_text v.

Definition JSON_parse (t : Stored) : Completion JSON :=
  match t with
  | json_text v => Normal v
  | other_text s => Throw (Error ("Unexpected token in JSON: " +:+ s))
  end.

(** ToBoolean of what [localStorage.getItem] returned: [null] and the empty
    string count as false. *)
Definition saved_truthy (saved : option Stored) : bool :=
  match saved with
  | None => false
  | Some (json_text _) => true
  | Some (other_text s) => negb (String.eqb s "")
  end.

Definition key_messages : string := "ai-helpdesk-messages".
Definition key_chatHistory : string := "ai-helpdesk-chatHistory".

(** The state arrays as JSON values, the way [JSON.stringify] sees them. *)
Definition Sender_json (s : Sender) : JSON :=
  match s with
  | sender_user => JStr "user"
  | sender_ai => JStr "ai"
  end.

Definition Role_json (r : Role) : JSON :=
  match r with
  | role_system => JStr "system"
  | role_user => JStr "user"
  | role_assistant => JStr "assistant"
  end.

Definition Message_json (m : Message) : JSON :=
  JObj (object [("sender", Some (Sender_json (sender m)));
                ("text", Some (text m));
                ("imageUrl", JStr <$> imageUrl m)]).

Definition OpenAIMessage_json (m : OpenAIMessage) : JSON :=
  JObj [("role", Role_json (role m)); ("content", content m)].

Definition messages_json (l : list Message) : JSON := JArr (Message_json <$> l).

Definition chatHistory_json (l : list OpenAIMessage) : JSON :=
  JArr (OpenAIMessage_json <$> l).

(** A parsed value read back at the type the state declares.  [JSON.parse]
    returns [any]; a value that is no array of that shape would leave the
    component outside its declared types, which is not modelled.  Only the
    declared properties are read: a property the type does not declare, which
    the page would carry along and write back, is dropped here. *)
Definition Sender_of_json (j : JSON) : option Sender :=
  match j with
  | JStr s =>
      if String.eqb s "user" then Some sender_user
      else if String.eqb s "ai" then Some sender_ai
      else None
  | _ => None
  end.

Definition Role_of_json (j : JSON) : option Role :=
  match j with
  | JStr s =>
      if String.eqb s "system" then Some role_system
      else if String.eqb s "user" then Some role_user
      else if String.eqb s "assistant" then Some role_assistant
      else None
  | _ => None
  end.

Definition Message_of_json (j : JSON) : option Message :=
  match j with
  | JObj props =>
      s ← lookup_prop "sender" props ≫= Sender_of_json;
      t ← lookup_prop "text" props;
      u ← match lookup_prop "imageUrl" props with
          | None => Some None
          | Some (JStr url) => Some (Some url)
          | Some _ => None
          end;
      Some (mkMessage s t u)
  | _ => None
  end.

Definition OpenAIMessage_of_json (j : JSON) : option OpenAIMessage :=
  match j with
  | JObj props =>
      r ← lookup_prop "role" props ≫= Role_of_json;
      c ← lookup_prop "content" props;
      Some (mkOpenAIMessage r c)
  | _ => None
  end.

Definition messages_of_json (j : JSON) : option (list Message) :=
  match j with
  | JArr items => mapM Message_of_json items
  | _ => None
  end.

Definition chatHistory_of_json (j : JSON) : option (list OpenAIMessage) :=
  match j with
  | JArr items => mapM OpenAIMessage_of_json items
  | _ => None
  end.

(** The two saving effects, [useEffect(..., [messages])] and
    [useEffect(..., [chatHistory])]. *)
Definition save_messages (st : State) (ls : gmap string Stored) : gmap string Stored :=
  <[key_messages := JSON_stringify (messages_json (messages st))]> ls.

Definition save_chatHistory (st : State) (ls : gmap string Stored) : gmap string Stored :=
  <[key_chatHistory := JSON_stringify (chatHistory_json (chatHistory st))]> ls.

(** How mounting the page ends. *)
Inductive Mounted : Type :=
| ready (st : State) (ls : gmap string Stored)
| crashed (e : option JSON)
| outside_types.

(** One [if (saved) { set(JSON.parse(saved)) }] of the loading effect. *)
Definition restore {A} (of_json : JSON → option A) (saved : option Stored)
    (set : A → State → State) (k : State → Mounted) (st : State) : Mounted :=
  match saved with
  | Some t =>
      if saved_truthy saved then
        match JSON_parse t with
        | Normal v =>
            match of_json v with
            | Some a => k (set a st)
            | None => outside_types
            end
        | Throw e => crashed e
        end
      else k st
  | None => k st
  end.

(** Mounting: the first render shows [initial_state]; then the effects run in
    the order they are declared: the loading effect reads the storage, the
    two saving effects write what the first render showed; the state set by
    the loading effect is rendered next, and each saving effect whose
    dependency was set runs again. *)
Definition mount (ls : gmap string Stored) : Mounted :=
  let savedMessages := ls !! key_messages in
  let savedChatHistory := ls !! key_chatHistory in
  restore messages_of_json savedMessages (λ v, setMessages (λ _, v))
    (restore chatHistory_of_json savedChatHistory setChatHistory
       (λ st,
          let ls1 := save_chatHistory initial_state (save_messages initial_state ls) in
          let ls2 := if saved_truthy savedMessages then save_messages st ls1 else ls1 in
          let ls3 := if saved_truthy savedChatHistory then save_chatHistory st ls2 else ls2 in
          ready (render st) ls3))
    initial_state.

Definition handleClearChat (st : State) (ls : gmap string Stored)
    : State * gmap string Stored :=
  let st1 := setMessages (λ _, []) st in
  let st2 := setChatHistory [system_turn] st1 in
  (st2, delete key_chatHistory (delete key_messages ls)).

(** After [handleClearChat] both arrays are new, so both saving effects run
    on the next render. *)
Definition handleClearChat_committed (st : State) (ls : gmap string Stored)
    : State * gmap string Stored :=
  let '(st', ls') := handleClearChat st ls in
  (render st', save_chatHistory st' (save_messages st' ls')).

(** *** Sending *)

(** How [await fetch(...)] followed by [await res.json()] ends: [fetch]
    rejects (network failure), or it resolves and [res.json()] completes. *)
Inductive FetchResult : Type :=
| fetch_rejected (e : option JSON)
| fetch_resolved (json : Completion JSON).

Definition await_json (r : FetchResult) : Completion JSON :=
  match r with
  | fetch_rejected e => Throw e
  | fetch_resolved json => json
  end.

(** What a started send is waiting for; a chat request remembers the
    [newHistory] of its closure. *)
Inductive Pending : Type :=
| pending_vision (formData : FormData)
| pending_chat (newHistory : list OpenAIMessage).

(** The body of the request that was issued. *)
Definition chat_request_body (newHistory : list OpenAIMessage) : JSON :=
  JObj [("messages", chatHistory_json newHistory)].

Definition default_prompt : string := "Please help me with this issue.".

(** [input || fallback] *)
Definition input_or (input fallback : string) : string :=
  if String.eqb input "" then fallback else input.

(** [data.result || data.error || fallback] *)
Definition reply_text (data : JSON) (fallback : string) : Completion JSON :=
  result ← member (Some data) "result";
  error ← member (Some data) "error";
  mret (or_else (or_value result error) (JStr fallback)).

Definition ai_message (t : JSON) : Message := mkMessage sender_ai t None.

(** The [try]/[catch] around the request to [/api/vision], shared by
    [handleSend] and [handleCaptureScreenShotFromStream], as the state its
    setters lead to, with the reply updater run in place.  The updater really
    runs at the next render, outside the [try]: this state is the one shown
    whenever that render succeeds, and [Rendering] below says when it does
    (with a [null] body it does not, and no apology is ever shown). *)
Definition vision_reply (r : FetchResult) (st : State) : State :=
  let st1 :=
    match (data ← await_json r;
           reply_text data "Sorry, I couldn't analyze the screenshot.") with
    | Normal t => setMessages (λ msgs, msgs ++ [ai_message t]) st
    | Throw _ =>
        setMessages
          (λ msgs, msgs ++
             [ai_message (JStr "Sorry, there was an error analyzing your screenshot.")])
          st
    end in
  setIsLoading false st1.

(** [handleSend] up to its first [await]. *)
Definition handleSend_start (createObjectURL : Blob → string) (st : State)
    : State * option Pending :=
  if String.eqb (input st) "" && negb (bool_decide (is_Some (image st))) then (st, None)
  else
    let newMsg :=
      mkMessage sender_user (JStr (input st))
                ((λ f, createObjectURL (File_blob f)) <$> image st) in
    let st1 := setMessages (λ msgs, msgs ++ [newMsg]) st in
    let st2 := setInput "" st1 in
    let st3 := setImage None st2 in
    let st4 := setIsLoading true st3 in
    match image st with
    | Some img =>
        let formData :=
          FormData_append "prompt" (FString (input_or (input st) default_prompt))
            (FormData_append "image" (FFile img) []) in
        (st4, Some (pending_vision formData))
    | None =>
        let newHistory :=
          chatHistory st ++ [mkOpenAIMessage role_user (JStr (input st))] in
        (setChatHistory newHistory st4, Some (pending_chat newHistory))
    end.

(** [handleSend] from the point where the request has settled, as the state
    its setters lead to, with the reply updater run in place (see
    [vision_reply]; [Rendering] has the render itself). *)
Definition handleSend_finish (p : Pending) (r : FetchResult) (st : State) : State :=
  match p with
  | pending_vision _ => vision_reply r st
  | pending_chat newHistory =>
      let st1 :=
        match (data ← await_json r;
               t ← reply_text data "Sorry, I couldn't generate a response.";
               result ← member (Some data) "result";
               mret (t, or_else result (JStr ""))) with
        | Normal (t, c) =>
            setChatHistory (newHistory ++ [mkOpenAIMessage role_assistant c])
              (setMessages (λ msgs, msgs ++ [ai_message t]) st)
        | Throw _ =>
            setMessages
              (λ msgs, msgs ++
                 [ai_message
                    (JStr "Sorry, there was an error getting a response from the AI.")])
              st
        end in
      setIsLoading false st1
  end.

(** A whole send, with nothing else happening while the request is out. *)
Definition handleSend (createObjectURL : Blob → string) (r : FetchResult)
    (st : State) : State :=
  match handleSend_start createObjectURL st with
  | (st1, Some p) => handleSend_finish p r st1
  | (st1, None) => st1
  end.

Definition handleImageChange (files : list File) (st : State) : State :=
  match files with
  | f :: _ => setImage (Some f) st
  | [] => st
  end.

(** *** Screen sharing *)

(** The [ended] listener that [handleStartScreenShare] registers: it calls the
    [handleStopScreenShare] of the render that registered it, which sees that
    render's [screenStream]. *)
Record Listener : Type := mkListener {
  listener_track : Track;
  listener_screenStream : option MediaStream
}.

(** [getDisplayMedia] is the outcome of
    [navigator.mediaDevices.getDisplayMedia({ video: true })]. *)
Definition handleStartScreenShare (getDisplayMedia : Completion MediaStream)
    (st : State) : State * option Listener :=
  match getDisplayMedia with
  | Normal stream =>
      let st1 := setScreenStream (Some stream) st in
      let st2 := setIsScreenSharing true st1 in
      let st3 :=
        match videoRef st2 with
        | Some _ => set_videoRef (Some (mkVideoElement (Some stream))) st2
        | None => st2
        end in
      match getVideoTracks stream !! 0%nat with
      | Some t => (st3, Some (mkListener t (screenStream st)))
      | None => (st3, None)
      end
  | Throw _ => (st, None)
  end.

(** [handleStopScreenShare], for the [screenStream] its closure sees. *)
Definition handleStopScreenShare (closure_screenStream : option MediaStream)
    (st : State) (m : Media) : State * Media :=
  let m1 :=
    match closure_screenStream with
    | Some stream => foldl (λ m t, track_stop t m) m (getTracks stream)
    | None => m
    end in
  let st1 := setScreenStream None st in
  let st2 := setIsScreenSharing false st1 in
  let st3 :=
    match videoRef st2 with
    | Some _ => set_videoRef (Some (mkVideoElement None)) st2
    | None => st2
    end in
  (st3, m1).

(** The user presses the stop button: the handler of the current render. *)
Definition stop_clicked (st : State) (m : Media) : State * Media :=
  let '(st', m') := handleStopScreenShare (screenStream st) st m in
  (render st', m').

(** The browser ends the listened-to track and fires its [ended] event. *)
Definition track_ended (l : Listener) (st : State) (m : Media) : State * Media :=
  let m1 := m ++ [ended_by_browser (track_id (listener_track l))] in
  let '(st', m') := handleStopScreenShare (listener_screenStream l) st m1 in
  (render st', m').

(** [handleCaptureScreenShotFromStream] up to its first [await];
    [context2d] tells whether [canvas.getContext("2d")] gave a context and
    [blob] is what [canvas.toBlob] passes to its callback. *)
Definition handleCapture_start (createObjectURL : Blob → string)
    (context2d : bool) (blob : option Blob) (st : State) : State * option Pending :=
  match videoRef st with
  | None => (st, None)
  | Some _ =>
      if negb context2d then (st, None)
      else
        match blob with
        | None => (st, None)
        | Some b =>
            let st1 := setIsLoading true st in
            let st2 :=
              setMessages
                (λ msgs, msgs ++
                   [mkMessage sender_user
                      (JStr (input_or (input st) "(Screenshot from screen share)"))
                      (Some (createObjectURL b))])
                st1 in
            let formData :=
              FormData_append "prompt" (FString (input_or (input st) default_prompt))
                (FormData_append "image" (FFile (File_of_Blob "screenshot.png" b)) []) in
            (st2, Some (pending_vision formData))
        end
  end.

Definition handleCaptureScreenShotFromStream (createObjectURL : Blob → string)
    (context2d : bool) (blob : option Blob) (r : FetchResult) (st : State) : State :=
  match handleCapture_start createObjectURL context2d blob st with
  | (st1, Some _) => vision_reply r st1
  | (st1, None) => st1
  end.

End Page.

(** ** The chat page, placeholder version (app/page.tsx)

    The earlier page: no chat route yet, no history, no storage, no screen
    sharing; a text-only send is answered by a timer with a canned reply. *)

Module PlaceholderPage.

Record State : Type := mkState {
  messages : list Page.Message;
  input : string;
  image : option File;
  isLoading : bool
}.

Definition setMessages (f : list Page.Message → list Page.Message) (st : State) : State :=
  mkState (f (messages st)) (input st) (image st) (isLoading st).

Definition setInput (v : string) (st : State) : State :=
  mkState (messages st) v (image st) (isLoading st).

Definition setImage (v : option File) (st : State) : State :=
  mkState (messages st) (input st) v (isLoading st).

Definition setIsLoading (v : bool) (st : State) : State :=
  mkState (messages st) (input st) (image st) v.

Definition initial_state : State := mkState [] "" None false.

Definition double_quote : string := String (ascii_of_nat 34) "".

(** The template literal of the canned reply. *)
Definition chat_response (input : string) : string :=
  "AI: (Chat response to " +:+ double_quote +:+ input +:+ double_quote +:+ ")".

(** What a started send is waiting for: the request to [/api/vision], or the
    timer, whose callback remembers the [input] of its closure. *)
Inductive Pending : Type :=
| pending_vision (formData : FormData)
| pending_timer (input : string).

(** [handleSend] up to its [await], or up to [setTimeout]. *)
Definition handleSend_start (createObjectURL : Blob → string) (st : State)
    : State * option Pending :=
  if String.eqb (input st) "" && negb (bool_decide (is_Some (image st))) then (st, None)
  else
    let newMsg :=
      Page.mkMessage Page.sender_user (JStr (input st))
                     ((λ f, createObjectURL (File_blob f)) <$> image st) in
    let st1 := setMessages (λ msgs, msgs ++ [newMsg]) st in
    let st2 := setInput "" st1 in
    let st3 := setImage None st2 in
    let st4 := setIsLoading true st3 in
    match image st with
    | Some img =>
        let formData :=
          FormData_append "prompt"
            (FString (Page.input_or (input st) Page.default_prompt))
            (FormData_append "image" (FFile img) []) in
        (st4, Some (pending_vision formData))
    | None => (st4, Some (pending_timer (input st)))
    end.

(** [handleSend] once the request has settled, or the timer has fired ([r] is
    then of no use), as the state its setters lead to, with the reply updater
    run in place: as on the chat page, the render that really runs it fails on
    a [null] body. *)
Definition handleSend_finish (p : Pending) (r : Page.FetchResult) (st : State) : State :=
  match p with
  | pending_vision _ =>
      let st1 :=
        match (data ← Page.await_json r;
               Page.reply_text data "Sorry, I couldn't analyze the screenshot.") with
        | Normal t => setMessages (λ msgs, msgs ++ [Page.ai_message t]) st
        | Throw _ =>
            setMessages
              (λ msgs, msgs ++
                 [Page.ai_message
                    (JStr "Sorry, there was an error analyzing your screenshot.")])
              st
        end in
      setIsLoading false st1
  | pending_timer input =>
      setIsLoading false
        (setMessages (λ msgs, msgs ++ [Page.ai_message (JStr (chat_response input))]) st)
  end.

Definition handleSend (createObjectURL : Blob → string) (r : Page.FetchResult)
    (st : State) : State :=
  match handleSend_start createObjectURL st with
  | (st1, Some p) => handleSend_finish p r st1
  | (st1, None) => st1
  end.

Definition handleImageChange (files : list File) (st : State) : State :=
  match files with
  | f :: _ => setImage (Some f) st
  | [] => st
  end.

End PlaceholderPage.

(** ** The chat page: the render after a handler

    [setMessages(f)] only queues [f]: React runs the queued updaters when it
    renders the component, after the handler has returned and outside its
    [try].  An updater that throws there, or a message whose [text] is no
    valid React child, ends the render with an exception; nothing catches it
    and the page is gone. *)

Module Rendering.

Import Page.

Inductive Crash : Type :=
| updater_threw (e : option JSON)
| invalid_child (t : JSON).

(** What the user has in front of them after the render. *)
Inductive Outcome : Type :=
| shows (st : State)
| crashed (why : Crash).

Definition Updater : Type := list Message → Completion (list Message).

(** [(msgs) => [...msgs, { sender: "ai", text: data.result || data.error || fallback }]]:
    [data] is read when the updater runs. *)
Definition reply_updater (data : JSON) (fallback : string) : Updater :=
  λ msgs,
    t ← reply_text data fallback;
    mret (msgs ++ [ai_message t]).

(** [(msgs) => [...msgs, { sender: "ai", text: t }]] for a fixed text [t]. *)
Definition fixed_updater (t : JSON) : Updater :=
  λ msgs, mret (msgs ++ [ai_message t]).

Fixpoint run_updaters (queue : list Updater) (msgs : list Message)
    : Completion (list Message) :=
  match queue with
  | [] => Normal msgs
  | f :: rest =>
      match f msgs with
      | Normal msgs' => run_updaters rest msgs'
      | Throw e => Throw e
      end
  end.

(** [{msg.text}] in the JSX: strings and numbers are shown, booleans and
    [null] show nothing, an array shows its elements, an object is refused. *)
Fixpoint valid_child (j : JSON) : bool :=
  match j with
  | JObj _ => false
  | JArr items => forallb valid_child items
  | _ => true
  end.

Fixpoint first_invalid_child (msgs : list Message) : option JSON :=
  match msgs with
  | [] => None
  | m :: rest => if valid_child (text m) then first_invalid_child rest else Some (text m)
  end.

(** What a handler has asked for between its [await] and its return: the
    updaters it queued on [messages], in order, and the history it set, if
    it set one.  It always ends with [setIsLoading(false)]. *)
Record Settled : Type := mkSettled {
  queued : list Updater;
  history_set : option (list OpenAIMessage)
}.

(** The [try]/[catch] of the image path (also that of the capture handler):
    the reply updater is queued when [fetch] and [res.json()] succeed, the
    apology otherwise. *)
Definition settle_vision (r : FetchResult) : Settled :=
  match await_json r with
  | Normal data =>
      mkSettled [reply_updater data "Sorry, I couldn't analyze the screenshot."] None
  | Throw _ =>
      mkSettled
        [fixed_updater (JStr "Sorry, there was an error analyzing your screenshot.")] None
  end.

(** The [try]/[catch] of the text path: the reply updater is queued first;
    [data.result] is then read, in place, for the assistant turn, and if that
    read throws the [catch] queues the apology behind the reply updater. *)
Definition settle_chat (newHistory : list OpenAIMessage) (r : FetchResult) : Settled :=
  match await_json r with
  | Normal data =>
      match member (Some data) "result" with
      | Normal result =>
          mkSettled
            [reply_updater data "Sorry, I couldn't generate a response."]
            (Some (newHistory ++ [mkOpenAIMessage role_assistant (or_else result (JStr ""))]))
      | Throw _ =>
          mkSettled
            [reply_updater data "Sorry, I couldn't generate a response.";
             fixed_updater
               (JStr "Sorry, there was an error getting a response from the AI.")]
            None
      end
  | Throw _ =>
      mkSettled
        [fixed_updater (JStr "Sorry, there was an error getting a response from the AI.")]
        None
  end.

Definition settle (p : Pending) (r : FetchResult) : Settled :=
  match p with
  | pending_vision _ => settle_vision r
  | pending_chat newHistory => settle_chat newHistory r
  end.

(** The render that follows: the queued updaters run, the new state is put in
    place, and the transcript is drawn. *)
Definition commit (s : Settled) (st : State) : Outcome :=
  match run_updaters (queued s) (messages st) with
  | Throw e => crashed (updater_threw e)
  | Normal msgs =>
      let st1 := setMessages (λ _, msgs) st in
      let st2 :=
        match history_set s with
        | Some h => setChatHistory h st1
        | None => st1
        end in
      let st3 := setIsLoading false st2 in
      match first_invalid_child (messages st3) with
      | Some t => crashed (invalid_child t)
      | None => shows st3
      end
  end.

(** [handleSend], from the press to the render of its outcome. *)
Definition handleSend (createObjectURL : Blob → string) (r : FetchResult)
    (st : State) : Outcome :=
  match handleSend_start createObjectURL st with
  | (st1, Some p) => commit (settle p r) st1
  | (st1, None) => shows st1
  end.

(** [handleCaptureScreenShotFromStream], likewise. *)
Definition handleCaptureScreenShotFromStream (createObjectURL : Blob → string)
    (context2d : bool) (blob : option Blob) (r : FetchResult) (st : State) : Outcome :=
  match handleCapture_start createObjectURL context2d blob st with
  | (st1, Some _) => commit (settle_vision r) st1
  | (st1, None) => shows st1
  end.

End Rendering.

(** ** Vocabulary of the statements *)

Definition no_messages_response : Response :=
  NextResponse_json (JObj [("error", JStr "No messages provided.")]) 400.

Definition chat_payload (items : list JSON) : JSON :=
  JObj [("model", JStr "gpt-4o"); ("messages", JArr items); ("max_tokens", JNum 500)].

(** What the route answers once the provider has returned [response]. *)
Definition first_choice_content (choices : list JSON) : option JSON :=
  opt_member (opt_member (choices !! 0%nat) "message") "content".

(** The 500 answer of either route for a thrown value [j]. *)
Definition error_response (j : JSON) : Response :=
  NextResponse_json
    (JObj [("error", or_else (get_prop j "message") (JStr "Unknown error"))]) 500.

(** What both routes do with a request that passed validation. *)
Definition relay (openai : Provider) (payload : JSON) (fallback : string)
    : Eff Response :=
  try_catch
    (response ← chat_completions_create openai payload;
     choices ← lift (member (Some response) "choices");
     first ← lift (element choices 0);
     mret (NextResponse_json
             (JObj [("result",
                     or_else (opt_member (opt_member first "message") "content")
                             (JStr fallback))]) 200))
    (λ err,
       message ← lift (member err "message");
       mret (NextResponse_json
               (JObj [("error", or_else message (JStr "Unknown error"))]) 500)).

Definition chat_fallback : string := "Sorry, I couldn't generate a response.".
Definition vision_fallback : string := "Sorry, I couldn't analyze the screenshot.".

Definition no_image_response : Response :=
  NextResponse_json (JObj [("error", JStr "No image uploaded.")]) 400.

Definition no_prompt_response : Response :=
  NextResponse_json (JObj [("error", JStr "No prompt provided.")]) 400.

(** The shape the specification asks of an element of [messages]. *)
Definition ProviderMessage_shaped (j : JSON) : bool :=
  match j with
  | JObj props =>
      match lookup_prop "role" props, lookup_prop "content" props with
      | Some (JStr r), Some (JStr _) =>
          String.eqb r "system" || String.eqb r "user" || String.eqb r "assistant"
      | _, _ => false
      end
  | _ => false
  end.

(** ** Sample inputs *)

Definition sample_file : File := mkFile "shot.png" "image/png" [Byte.x89; Byte.x50].

Definition sample_form : FormData :=
  [("image", FFile sample_file); ("prompt", FString "what is this?")].

Definition sample_turn : JSON :=
  JObj [("role", JStr "user"); ("content", JStr "printer not working")].

Definition sample_body : JSON := JObj [("messages", JArr [sample_turn])].

Definition sample_choices (content : JSON) : list JSON :=
  [JObj [("message", JObj [("content", content)])]].

Definition sample_completion (content : JSON) : JSON :=
  JObj [("choices", JArr (sample_choices content))].

Definition first_send : Page.State :=
  Page.setInput "printer not working" Page.initial_state.

Definition image_send (f : File) (text : string) : Page.State :=
  Page.setImage (Some f) (Page.setInput text Page.initial_state).

Definition sharing_state : Page.State :=
  Page.render (Page.setIsScreenSharing true Page.initial_state).

Definition sample_blob : Blob := mkBlob "image/png" [Byte.x89; Byte.x50].

(** The two states of the screen-sharing control. *)
Definition NotSharing (st : Page.State) : Prop :=
  Page.screenStream st = None ∧ Page.isScreenSharing st = false ∧ Page.videoRef st = None.

Definition Sharing (stream : Page.MediaStream) (st : Page.State) : Prop :=
  Page.screenStream st = Some stream ∧ Page.isScreenSharing st = true.

Definition screen_track : Page.Track := Page.mkTrack 7 Page.video_track.

Definition screen_stream : Page.MediaStream := Page.mkMediaStream [screen_track].

(** ** Vocabulary of the further statements *)

(** The [catch] clause of both routes. *)
Definition on_error (err : option JSON) : Eff Response :=
  message ← lift (member err "message");
  mret (NextResponse_json
          (JObj [("error", or_else message (JStr "Unknown error"))]) 500).

(** The three shapes an answer of a route can have. *)
Definition is_result (r : Response) : Prop :=
  status r = 200 ∧ ∃ x, body r = JObj [("result", x)] ∧ truthy x = true.

Definition is_rejection (r : Response) : Prop :=
  status r = 400 ∧ ∃ msg, msg ≠ "" ∧ body r = JObj [("error", JStr msg)].

Definition is_failure (r : Response) : Prop :=
  status r = 500 ∧ ∃ x, body r = JObj [("error", x)] ∧ truthy x = true.

(** What [fetch] and [res.json()] give the page when a route answered [r]. *)
Definition fetch_from (r : Response) : Page.FetchResult :=
  Page.fetch_resolved (Normal (body r)).

(** The fixed texts the page shows when a request fails on its side. *)
Definition chat_error_text : JSON :=
  JStr "Sorry, there was an error getting a response from the AI.".

Definition vision_error_text : JSON :=
  JStr "Sorry, there was an error analyzing your screenshot.".

(** A request that failed on the page's side: [fetch] rejected, or
    [res.json()] rejected. *)
Definition rejected_on_page (r : Page.FetchResult) : Prop :=
  (∃ e, r = Page.fetch_rejected e) ∨ (∃ e, r = Page.fetch_resolved (Throw e)).

(** A property that is absent or holds a string. *)
Definition string_or_absent (v : option JSON) : Prop :=
  v = None ∨ ∃ s, v = Some (JStr s).

(** Every text of the transcript can be drawn. *)
Definition renders (st : Page.State) : Prop :=
  Rendering.first_invalid_child (Page.messages st) = None.

(** The TypeError of reading [data.result] from a [null] body. *)
Definition null_body_error : option JSON := TypeError_read (Some JNull) "result".

(** A request whose outcome the page can draw: it was rejected on the page's
    side, or its body is not [null] and the value of
    [data.result || data.error], when there is one, is a valid child. *)
Definition drawable_outcome (r : Page.FetchResult) : Prop :=
  rejected_on_page r
  ∨ ∃ data, r = Page.fetch_resolved (Normal data) ∧ data ≠ JNull
      ∧ ∀ t, or_value (get_prop data "result") (get_prop data "error") = Some t →
             Rendering.valid_child t = true.

(** The things a user, or the browser, can do to the page, each taken as a
    whole (a send together with the settling of its request). *)
Inductive Action : Type :=
| type_text (s : string)
| choose_files (files : list File)
| remove_image
| press_send (createObjectURL : Blob → string) (r : Page.FetchResult)
| press_clear
| press_share (getDisplayMedia : Completion Page.MediaStream)
| press_stop
| share_ended
| press_capture (createObjectURL : Blob → string) (context2d : bool)
    (blob : option Blob) (r : Page.FetchResult).

(** The state a stop leaves does not depend on the stream its closure sees, so
    the media log is left out here. *)
Definition act (a : Action) (st : Page.State) : Page.State :=
  Page.render
    match a with
    | type_text s => Page.setInput s st
    | choose_files files => Page.handleImageChange files st
    | remove_image => Page.setImage None st
    | press_send url r => Page.handleSend url r st
    | press_clear => (Page.handleClearChat st ∅).1
    | press_share gdm => (Page.handleStartScreenShare gdm st).1
    | press_stop => (Page.handleStopScreenShare (Page.screenStream st) st []).1
    | share_ended => (Page.handleStopScreenShare None st []).1
    | press_capture url ctx blob r =>
        Page.handleCaptureScreenShotFromStream url ctx blob r st
    end.

Definition run (actions : list Action) (st : Page.State) : Page.State :=
  foldl (λ st a, act a st) st actions.

(** What holds of the page between two actions. *)
Definition starts_with_system_turn (st : Page.State) : Prop :=
  ∃ rest, Page.chatHistory st = Page.system_turn :: rest.

Definition sharing_consistent (st : Page.State) : Prop :=
  (Page.screenStream st = None ↔ Page.isScreenSharing st = false)
  ∧ (Page.videoRef st = None ↔ Page.isScreenSharing st = false).

Definition two_track_stream : Page.MediaStream :=
  Page.mkMediaStream [Page.mkTrack 7 Page.video_track; Page.mkTrack 8 Page.audio_track].

Definition sample_session : list Action :=
  [type_text "printer not working";
   press_send (λ _, "blob:1") (Page.fetch_rejected undefined);
   press_share (Normal screen_stream);
   press_capture (λ _, "blob:2") true (Some sample_blob)
     (Page.fetch_resolved (Normal (JObj [("result", JStr "It is a driver error.")])));
   share_ended;
   choose_files [sample_file];
   press_send (λ _, "blob:3") (Page.fetch_resolved (Normal JNull))].

(** What the placeholder page knows of a state of the final page. *)
Definition placeholder_view (st : Page.State) : PlaceholderPage.State :=
  PlaceholderPage.mkState (Page.messages st) (Page.input st) (Page.image st)
                          (Page.isLoading st).

(** * Properties *)

(** ** The runtime *)

Section JS_facts.
Implicit Types (v : option JSON) (j d : JSON) (p : string).

Lemma or_else_truthy v d : truthy d = true → truthy (or_else v d) = true.
Proof.
  intros Hd. destruct v as [j|]; simpl; [|done].
  destruct (truthy j) eqn:Hj; done.
Qed.

Lemma or_else_Some_truthy j d : truthy j = true → or_else (Some j) d = j.
Proof. intros H. simpl. by rewrite H. Qed.

Lemma or_else_falsy v d : ToBoolean v = false → or_else v d = d.
Proof. destruct v as [j|]; simpl; [|done]. by intros ->. Qed.

Lemma or_else_undefined d : or_else undefined d = d.
Proof. done. Qed.

Lemma member_Some j p : j ≠ JNull → member (Some j) p = Normal (get_prop j p).
Proof. intros H. by destruct j. Qed.

Lemma element_Some j i : j ≠ JNull → element (Some j) i = Normal (get_elem j i).
Proof. intros H. by destruct j. Qed.

Lemma get_prop_Some_not_null j p x : get_prop j p = Some x → j ≠ JNull.
Proof. by destruct j. Qed.

Lemma truthy_JStr s : truthy (JStr s) = true ↔ s ≠ "".
Proof.
  simpl. destruct (String.eqb_spec s ""); simpl; split; congruence.
Qed.

Lemma not_nullish v : nullish v = false ↔ ∃ j, v = Some j ∧ j ≠ JNull.
Proof.
  split.
  - destruct v as [[]|]; simpl; try done; eauto.
  - intros (j & -> & Hj). by destruct j.
Qed.
End JS_facts.

(** Laws of the effect monad *)

Lemma Eff_bind_ret {A B} (a : A) (f : A → Eff B) : (mret a ≫= f) = f a.
Proof. unfold mret, Eff_ret, mbind, Eff_bind. by destruct (f a). Qed.

Lemma Eff_bind_lift_Normal {A B} (a : A) (f : A → Eff B) :
  (lift (Normal a) ≫= f) = f a.
Proof. apply Eff_bind_ret. Qed.

Lemma Eff_bind_lift_Throw {A B} e (f : A → Eff B) :
  (lift (Throw e) ≫= f) = (Throw e, []).
Proof. done. Qed.

Lemma Eff_bind_create {B} openai payload (f : JSON → Eff B) :
  (chat_completions_create openai payload ≫= f) =
    match openai payload with
    | Normal response => let '(c, calls) := f response in (c, payload :: calls)
    | Throw e => (Throw e, [payload])
    end.
Proof.
  unfold chat_completions_create, mbind, Eff_bind.
  destruct (openai payload); [|done]. by destruct (f a).
Qed.

Lemma try_catch_Normal {A} (a : A) calls h : try_catch (Normal a, calls) h = (Normal a, calls).
Proof. done. Qed.

(** ** The chat route *)

Lemma chat_POST_invalid openai body :
  body ≠ JNull →
  Array_isArray (get_prop body "messages") = false
  ∨ get_prop body "messages" = Some (JArr []) →
  ChatRoute.POST openai (Normal body) = (Normal no_messages_response, []).
Proof.
  intros Hbody Hm. unfold ChatRoute.POST.
  rewrite Eff_bind_lift_Normal, (member_Some _ _ Hbody), Eff_bind_lift_Normal.
  destruct Hm as [Hm | Hm]; rewrite Hm; reflexivity.
Qed.

Lemma chat_POST_valid openai body items :
  get_prop body "messages" = Some (JArr items) → items ≠ [] →
  ChatRoute.POST openai (Normal body) = relay openai (chat_payload items) chat_fallback.
Proof.
  intros Hm Hne. unfold ChatRoute.POST, relay.
  rewrite Eff_bind_lift_Normal.
  rewrite (member_Some _ _ (get_prop_Some_not_null _ _ _ Hm)), Eff_bind_lift_Normal, Hm.
  destruct items as [|x items]; [done|]. reflexivity.
Qed.

(** ** The vision route *)

Lemma vision_POST_no_image openai fd :
  instanceof_Blob (FormData_get "image" fd) = false →
  VisionRoute.POST openai (Normal fd) = (Normal no_image_response, []).
Proof.
  intros Hf. unfold VisionRoute.POST. rewrite Eff_bind_lift_Normal.
  cbv zeta. rewrite Hf, orb_true_r. reflexivity.
Qed.

Lemma vision_POST_no_prompt openai fd f :
  FormData_get "image" fd = Some (FFile f) →
  entry_truthy (FormData_get "prompt" fd) = false →
  VisionRoute.POST openai (Normal fd) = (Normal no_prompt_response, []).
Proof.
  intros Hf Hp. unfold VisionRoute.POST. rewrite Eff_bind_lift_Normal.
  cbv zeta. rewrite Hf, Hp. reflexivity.
Qed.

Lemma vision_POST_valid openai fd f p :
  FormData_get "image" fd = Some (FFile f) →
  FormData_get "prompt" fd = Some p →
  entry_truthy (Some p) = true →
  VisionRoute.POST openai (Normal fd) =
    relay openai (VisionRoute.vision_payload f p) vision_fallback.
Proof.
  intros Hf Hp Ht. unfold VisionRoute.POST, relay. rewrite Eff_bind_lift_Normal.
  cbv zeta. rewrite Hf, Hp, Ht. reflexivity.
Qed.

(** ** After validation *)

Lemma relay_success openai payload fallback response choices :
  openai payload = Normal response →
  get_prop response "choices" = Some (JArr choices) →
  relay openai payload fallback =
    (Normal (NextResponse_json
               (JObj [("result", or_else (first_choice_content choices) (JStr fallback))])
               200),
     [payload]).
Proof.
  intros Hcall Hch. unfold relay. rewrite Eff_bind_create, Hcall.
  rewrite (member_Some _ _ (get_prop_Some_not_null _ _ _ Hch)), Eff_bind_lift_Normal, Hch.
  rewrite element_Some by done. rewrite Eff_bind_lift_Normal. reflexivity.
Qed.

Lemma relay_throw openai payload fallback j :
  openai payload = Throw (Some j) → j ≠ JNull →
  relay openai payload fallback = (Normal (error_response j), [payload]).
Proof.
  intros Hcall Hj. unfold relay. rewrite Eff_bind_create, Hcall.
  unfold try_catch. rewrite (member_Some _ _ Hj), Eff_bind_lift_Normal. reflexivity.
Qed.

Lemma relay_malformed openai payload fallback response :
  openai payload = Normal response →
  response = JNull ∨ nullish (get_prop response "choices") = true →
  ∃ msg, msg ≠ "" ∧
    relay openai payload fallback =
      (Normal (NextResponse_json (JObj [("error", JStr msg)]) 500), [payload]).
Proof.
  intros Hcall Hbad. unfold relay. rewrite Eff_bind_create, Hcall.
  destruct Hbad as [-> | Hn].
  - eexists. split; [|reflexivity]. done.
  - destruct (member (Some response) "choices") as [choices | e] eqn:Hm.
    + assert (nullish choices = true) as Hc.
      { destruct response; simpl in Hm; by simplify_eq. }
      rewrite Eff_bind_lift_Normal.
      destruct choices as [[]|]; try done; (eexists; split; [|reflexivity]; done).
    + destruct response; simpl in Hm; simplify_eq.
      eexists. split; [|reflexivity]. done.
Qed.

Lemma relay_calls openai payload fallback : (relay openai payload fallback).2 = [payload].
Proof.
  unfold relay. rewrite Eff_bind_create.
  destruct (openai payload) as [response | e].
  - destruct (member (Some response) "choices") as [choices | e1];
      [rewrite Eff_bind_lift_Normal | rewrite Eff_bind_lift_Throw].
    + destruct (element choices 0) as [first | e2];
        [rewrite Eff_bind_lift_Normal | rewrite Eff_bind_lift_Throw].
      * reflexivity.
      * unfold try_catch. destruct (member e2 "message"); reflexivity.
    + unfold try_catch. destruct (member e1 "message"); reflexivity.
  - unfold try_catch. destruct (member e "message"); reflexivity.
Qed.

Lemma relay_success_text fallback choices :
  fallback ≠ "" →
  let text := or_else (first_choice_content choices) (JStr fallback) in
  truthy text = true
  ∧ (∀ c, first_choice_content choices = Some c → truthy c = true → text = c)
  ∧ (first_choice_content choices = None → text = JStr fallback).
Proof.
  intros Hf text. subst text. split; [|split].
  - apply or_else_truthy. by apply truthy_JStr.
  - intros c -> Hc. by apply or_else_Some_truthy.
  - by intros ->.
Qed.

Lemma error_response_spec j :
  status (error_response j) = 500
  ∧ (get_prop j "message" = None →
     body (error_response j) = JObj [("error", JStr "Unknown error")])
  ∧ (∀ m, get_prop j "message" = Some m → truthy m = true →
     body (error_response j) = JObj [("error", m)]).
Proof.
  unfold error_response. split; [done|]. split.
  - by intros ->.
  - intros m -> Hm. simpl. by rewrite Hm.
Qed.

(** ** Sample runs of the routes *)

Example base64_Man : base64 [Byte.x4d; Byte.x61; Byte.x6e] = "TWFu".
Proof. reflexivity. Qed.

Example base64_Ma : base64 [Byte.x4d; Byte.x61] = "TWE=".
Proof. reflexivity. Qed.

Example base64_M : base64 [Byte.x4d] = "TQ==".
Proof. reflexivity. Qed.

Example base64_ff : base64 [Byte.xff; Byte.xfe; Byte.xfb; Byte.x00] = "//77AA==".
Proof. reflexivity. Qed.

Example vision_payload_url :
  get_prop (VisionRoute.vision_payload sample_file (FString "what is this?")) "messages"
  = Some (JArr
      [JObj [("role", JStr "system"); ("content", JStr VisionRoute.system_prompt)];
       JObj [("role", JStr "user");
             ("content",
               JArr [JObj [("type", JStr "text"); ("text", JStr "what is this?")];
                     JObj [("type", JStr "image_url");
                           ("image_url",
                             JObj [("url", JStr "data:image/png;base64,iVA=")])]])]]).
Proof. reflexivity. Qed.

(** A body that is [null] makes [body.messages] throw: the answer is 500. *)
Example chat_POST_null_body :
  ChatRoute.POST (λ _, Throw undefined) (Normal JNull)
  = (Normal (NextResponse_json
               (JObj [("error",
                       JStr "Cannot read properties of null (reading 'messages')")]) 500),
     []).
Proof. reflexivity. Qed.

(** A body that is not JSON makes [req.json()] throw: the answer is 500. *)
Example chat_POST_unparsable_body :
  ChatRoute.POST (λ _, Throw undefined) (Throw (Error "Unexpected end of JSON input"))
  = (Normal (NextResponse_json
               (JObj [("error", JStr "Unexpected end of JSON input")]) 500),
     []).
Proof. reflexivity. Qed.

(** A completion without choices gives the fallback text. *)
Example chat_POST_no_choice :
  ChatRoute.POST (λ _, Normal (JObj [("choices", JArr [])])) (Normal sample_body)
  = (Normal (NextResponse_json (JObj [("result", JStr chat_fallback)]) 200),
     [chat_payload [sample_turn]]).
Proof. reflexivity. Qed.

(** The [catch] clause reads [err.message]; were [null] thrown, that read
    would throw in turn. *)
Example chat_POST_null_thrown :
  ChatRoute.POST (λ _, Throw (Some JNull)) (Normal sample_body)
  = (Throw (TypeError_read (Some JNull) "message"), [chat_payload [sample_turn]]).
Proof. reflexivity. Qed.

(** A [prompt] field holding a file passes the [!prompt] test. *)
Example vision_POST_file_as_prompt :
  (VisionRoute.POST (λ _, Normal (sample_completion (JStr "ok")))
     (Normal [("image", FFile sample_file); ("prompt", FFile sample_file)])).2
  = [VisionRoute.vision_payload sample_file (FFile sample_file)].
Proof. reflexivity. Qed.

(** ** Claims about the two routes *)

(** C1, as amended.  A request to the chat route whose JSON body is not [null]
    and whose [messages] is absent, not an array, or an empty array is
    answered 400 with [{error: "No messages provided."}] and no provider call
    is made.  The elements of a non-empty array are not inspected: exactly one
    provider call is made, with the array forwarded as it is. *)
Theorem chat_POST_validation openai body :
  body ≠ JNull →
  (Array_isArray (get_prop body "messages") = false
   ∨ get_prop body "messages" = Some (JArr []) →
   ChatRoute.POST openai (Normal body) = (Normal no_messages_response, []))
  ∧ (∀ items, get_prop body "messages" = Some (JArr items) → items ≠ [] →
     (ChatRoute.POST openai (Normal body)).2 = [chat_payload items]).
Proof.
  intros Hbody. split.
  - by apply chat_POST_invalid.
  - intros items Hm Hne. rewrite (chat_POST_valid _ _ _ Hm Hne). apply relay_calls.
Qed.

Lemma chat_POST_validation_witness :
  ChatRoute.POST (λ _, Throw undefined) (Normal (JObj [("foo", JNum 1)]))
    = (Normal no_messages_response, [])
  ∧ (ChatRoute.POST (λ _, Throw undefined)
       (Normal (JObj [("messages", JArr [JStr "hi"])]))).2
    = [chat_payload [JStr "hi"]].
Proof.
  split.
  - apply (chat_POST_validation (λ _, Throw undefined) (JObj [("foo", JNum 1)])).
    + discriminate.
    + left. reflexivity.
  - apply (chat_POST_validation (λ _, Throw undefined)
             (JObj [("messages", JArr [JStr "hi"])])).
    + discriminate.
    + reflexivity.
    + discriminate.
Defined.

(** C1, as stated, fails: [messages] holding the number 42, which is no
    [{role, content}] object, is not answered 400; the provider is called and
    its reply is returned with status 200. *)
Lemma chat_POST_unshaped_elements_reach_provider :
  let openai : Provider :=
    λ _, Normal (JObj [("choices",
                        JArr [JObj [("message", JObj [("content", JStr "Hello")])]])]) in
  let req := Normal (JObj [("messages", JArr [JNum 42])]) in
  ProviderMessage_shaped (JNum 42) = false
  ∧ ChatRoute.POST openai req =
      (Normal (NextResponse_json (JObj [("result", JStr "Hello")]) 200),
       [chat_payload [JNum 42]])
  ∧ (∀ r, (ChatRoute.POST openai req).1 = Normal r → status r ≠ 400)
  ∧ (ChatRoute.POST openai req).2 ≠ [].
Proof.
  cbv zeta. split; [reflexivity|]. split; [reflexivity|]. split.
  - intros r Hr. vm_compute in Hr. inversion Hr. discriminate.
  - discriminate.
Qed.

(** C2, as amended.  A multipart request to the vision route whose [image]
    field is missing or is not a file is answered 400 with
    [{error: "No image uploaded."}]; a request whose [image] field is a file
    and whose [prompt] field is missing or empty is answered 400 with
    [{error: "No prompt provided."}]; in both cases no provider call is
    made. *)
Theorem vision_POST_validation openai fd :
  (FormData_get "image" fd = None ∨ (∃ s, FormData_get "image" fd = Some (FString s)) →
   VisionRoute.POST openai (Normal fd) = (Normal no_image_response, []))
  ∧ (∀ f, FormData_get "image" fd = Some (FFile f) →
     FormData_get "prompt" fd = None ∨ FormData_get "prompt" fd = Some (FString "") →
     VisionRoute.POST openai (Normal fd) = (Normal no_prompt_response, [])).
Proof.
  split.
  - intros [H | [s H]]; apply vision_POST_no_image; by rewrite H.
  - intros f Hf [H | H]; apply (vision_POST_no_prompt _ _ f Hf); by rewrite H.
Qed.

Lemma vision_POST_validation_witness :
  VisionRoute.POST (λ _, Throw undefined) (Normal [("prompt", FString "help")])
    = (Normal no_image_response, [])
  ∧ VisionRoute.POST (λ _, Throw undefined)
      (Normal [("image", FFile (mkFile "a.png" "image/png" [Byte.x89]));
               ("prompt", FString "")])
    = (Normal no_prompt_response, []).
Proof.
  split.
  - apply (vision_POST_validation (λ _, Throw undefined) [("prompt", FString "help")]).
    left. reflexivity.
  - eapply (vision_POST_validation (λ _, Throw undefined)
              [("image", FFile (mkFile "a.png" "image/png" [Byte.x89]));
               ("prompt", FString "")]).
    + reflexivity.
    + right. reflexivity.
Defined.

(** C2, as stated, fails: a request with neither field has its [prompt]
    missing, yet the answer is [{error: "No image uploaded."}], not
    [{error: "No prompt provided."}]. *)
Lemma vision_POST_both_missing_reports_image :
  FormData_get "prompt" [] = None
  ∧ VisionRoute.POST (λ _, Throw undefined) (Normal []) = (Normal no_image_response, [])
  ∧ VisionRoute.POST (λ _, Throw undefined) (Normal []) ≠ (Normal no_prompt_response, []).
Proof. split; [reflexivity|]. split; [reflexivity|]. discriminate. Qed.

(** C3.  On a valid request for which the provider returns a completion, either
    route answers 200 with [{result: text}], where [text] is the content of
    the first choice's message, or the route's fixed fallback when that content
    is absent; [text] is never empty. *)
Theorem relay_success_result :
  (∀ openai body items response choices,
     get_prop body "messages" = Some (JArr items) → items ≠ [] →
     openai (chat_payload items) = Normal response →
     get_prop response "choices" = Some (JArr choices) →
     let text := or_else (first_choice_content choices) (JStr chat_fallback) in
     ChatRoute.POST openai (Normal body) =
       (Normal (NextResponse_json (JObj [("result", text)]) 200), [chat_payload items])
     ∧ truthy text = true
     ∧ (∀ c, first_choice_content choices = Some c → truthy c = true → text = c)
     ∧ (first_choice_content choices = None → text = JStr chat_fallback))
  ∧ (∀ openai fd f p response choices,
     FormData_get "image" fd = Some (FFile f) →
     FormData_get "prompt" fd = Some p → entry_truthy (Some p) = true →
     openai (VisionRoute.vision_payload f p) = Normal response →
     get_prop response "choices" = Some (JArr choices) →
     let text := or_else (first_choice_content choices) (JStr vision_fallback) in
     VisionRoute.POST openai (Normal fd) =
       (Normal (NextResponse_json (JObj [("result", text)]) 200),
        [VisionRoute.vision_payload f p])
     ∧ truthy text = true
     ∧ (∀ c, first_choice_content choices = Some c → truthy c = true → text = c)
     ∧ (first_choice_content choices = None → text = JStr vision_fallback)).
Proof.
  split.
  - intros openai body items response choices Hm Hne Hcall Hch text. split.
    + rewrite (chat_POST_valid _ _ _ Hm Hne). by eapply relay_success.
    + by apply relay_success_text.
  - intros openai fd f p response choices Hf Hp Ht Hcall Hch text. split.
    + rewrite (vision_POST_valid _ _ _ _ Hf Hp Ht). by eapply relay_success.
    + by apply relay_success_text.
Qed.

Lemma relay_success_result_witness :
  ChatRoute.POST (λ _, Normal (sample_completion (JStr "Restart the printer.")))
      (Normal sample_body)
    = (Normal (NextResponse_json (JObj [("result", JStr "Restart the printer.")]) 200),
       [chat_payload [sample_turn]])
  ∧ VisionRoute.POST (λ _, Normal (sample_completion JNull)) (Normal sample_form)
    = (Normal (NextResponse_json (JObj [("result", JStr vision_fallback)]) 200),
       [VisionRoute.vision_payload sample_file (FString "what is this?")]).
Proof.
  split.
  - apply (proj1 relay_success_result
             (λ _, Normal (sample_completion (JStr "Restart the printer.")))
             sample_body [sample_turn]
             (sample_completion (JStr "Restart the printer."))
             (sample_choices (JStr "Restart the printer.")));
      [reflexivity | discriminate | reflexivity | reflexivity].
  - apply (proj2 relay_success_result
             (λ _, Normal (sample_completion JNull))
             sample_form sample_file (FString "what is this?")
             (sample_completion JNull) (sample_choices JNull));
      reflexivity.
Defined.

(** C4.  On a valid request for which the provider call throws an error, either
    route catches it and answers 500 with [{error: m}], where [m] is the
    error's message, or "Unknown error" when the message is absent; a
    malformed completion (no [choices]) ends the same way, through the
    TypeError raised while reading it.  The handler itself completes normally
    in each case. *)
Theorem relay_failure_is_500 :
  (∀ openai json items,
     get_prop json "messages" = Some (JArr items) → items ≠ [] →
     (∀ j, openai (chat_payload items) = Throw (Some j) → j ≠ JNull →
        ChatRoute.POST openai (Normal json) =
          (Normal (error_response j), [chat_payload items])
        ∧ status (error_response j) = 500
        ∧ (get_prop j "message" = None →
           body (error_response j) = JObj [("error", JStr "Unknown error")])
        ∧ (∀ m, get_prop j "message" = Some m → truthy m = true →
           body (error_response j) = JObj [("error", m)]))
     ∧ (∀ response, openai (chat_payload items) = Normal response →
        response = JNull ∨ nullish (get_prop response "choices") = true →
        ∃ msg, msg ≠ "" ∧
          ChatRoute.POST openai (Normal json) =
            (Normal (NextResponse_json (JObj [("error", JStr msg)]) 500),
             [chat_payload items])))
  ∧ (∀ openai fd f p,
     FormData_get "image" fd = Some (FFile f) →
     FormData_get "prompt" fd = Some p → entry_truthy (Some p) = true →
     (∀ j, openai (VisionRoute.vision_payload f p) = Throw (Some j) → j ≠ JNull →
        VisionRoute.POST openai (Normal fd) =
          (Normal (error_response j), [VisionRoute.vision_payload f p])
        ∧ status (error_response j) = 500
        ∧ (get_prop j "message" = None →
           body (error_response j) = JObj [("error", JStr "Unknown error")])
        ∧ (∀ m, get_prop j "message" = Some m → truthy m = true →
           body (error_response j) = JObj [("error", m)]))
     ∧ (∀ response, openai (VisionRoute.vision_payload f p) = Normal response →
        response = JNull ∨ nullish (get_prop response "choices") = true →
        ∃ msg, msg ≠ "" ∧
          VisionRoute.POST openai (Normal fd) =
            (Normal (NextResponse_json (JObj [("error", JStr msg)]) 500),
             [VisionRoute.vision_payload f p]))).
Proof.
  split.
  - intros openai json items Hm Hne. rewrite (chat_POST_valid _ _ _ Hm Hne). split.
    + intros j Hcall Hj. split; [by apply relay_throw | apply error_response_spec].
    + intros response Hcall Hbad. by eapply relay_malformed.
  - intros openai fd f p Hf Hp Ht. rewrite (vision_POST_valid _ _ _ _ Hf Hp Ht). split.
    + intros j Hcall Hj. split; [by apply relay_throw | apply error_response_spec].
    + intros response Hcall Hbad. by eapply relay_malformed.
Qed.

Lemma relay_failure_is_500_witness :
  ChatRoute.POST (λ _, Throw (Error "Connection error.")) (Normal sample_body)
    = (Normal (NextResponse_json (JObj [("error", JStr "Connection error.")]) 500),
       [chat_payload [sample_turn]])
  ∧ VisionRoute.POST (λ _, Throw (Some (JObj []))) (Normal sample_form)
    = (Normal (NextResponse_json (JObj [("error", JStr "Unknown error")]) 500),
       [VisionRoute.vision_payload sample_file (FString "what is this?")]).
Proof.
  split.
  - apply (proj1 (proj1 relay_failure_is_500
                    (λ _, Throw (Error "Connection error.")) sample_body [sample_turn]
                    eq_refl ltac:(discriminate))
             (JObj [("message", JStr "Connection error.")]));
      [reflexivity | discriminate].
  - apply (proj1 (proj2 relay_failure_is_500
                    (λ _, Throw (Some (JObj []))) sample_form sample_file
                    (FString "what is this?") eq_refl eq_refl eq_refl)
             (JObj []));
      [reflexivity | discriminate].
Defined.

(** ** The page: sending *)

Import Page.

Lemma input_or_nonempty input fallback : fallback ≠ "" → input_or input fallback ≠ "".
Proof. unfold input_or. destruct (String.eqb_spec input ""); congruence. Qed.

Lemma reply_text_Some data fallback :
  data ≠ JNull →
  reply_text data fallback =
    Normal (or_else (or_value (get_prop data "result") (get_prop data "error"))
                    (JStr fallback)).
Proof. intros Hd. unfold reply_text. by rewrite !member_Some. Qed.

Lemma handleSend_start_text url st :
  image st = None → input st ≠ "" →
  let newHistory := chatHistory st ++ [mkOpenAIMessage role_user (JStr (input st))] in
  ∃ st1, handleSend_start url st = (st1, Some (pending_chat newHistory))
    ∧ chatHistory st1 = newHistory
    ∧ messages st1 = messages st ++ [mkMessage sender_user (JStr (input st)) None].
Proof.
  intros Himg Hin newHistory. unfold handleSend_start. rewrite Himg.
  destruct (String.eqb_spec (input st) ""); [done|].
  eexists. split; [reflexivity|]. done.
Qed.

Lemma handleSend_start_image url st f :
  image st = Some f →
  let fd := [("image", FFile f);
             ("prompt", FString (input_or (input st) default_prompt))] in
  ∃ st1, handleSend_start url st = (st1, Some (pending_vision fd))
    ∧ chatHistory st1 = chatHistory st
    ∧ image st1 = None
    ∧ messages st1 =
        messages st ++ [mkMessage sender_user (JStr (input st)) (Some (url (File_blob f)))].
Proof.
  intros Himg fd. unfold handleSend_start. rewrite Himg.
  rewrite andb_false_r. eexists. split; [reflexivity|]. done.
Qed.

Lemma vision_reply_spec r st :
  ∃ t, messages (vision_reply r st) = messages st ++ [ai_message t]
    ∧ chatHistory (vision_reply r st) = chatHistory st
    ∧ isLoading (vision_reply r st) = false.
Proof.
  unfold vision_reply.
  destruct (await_json r ≫= _) as [t | e]; eexists; split; try reflexivity; done.
Qed.

Lemma handleSend_finish_chat_resolved newHistory data st :
  data ≠ JNull →
  handleSend_finish (pending_chat newHistory) (fetch_resolved (Normal data)) st =
    setIsLoading false
      (setChatHistory
         (newHistory ++
            [mkOpenAIMessage role_assistant (or_else (get_prop data "result") (JStr ""))])
         (setMessages
            (λ msgs, msgs ++
               [ai_message
                  (or_else (or_value (get_prop data "result") (get_prop data "error"))
                           (JStr chat_fallback))])
            st)).
Proof.
  intros Hd. unfold handleSend_finish, await_json, mbind, Completion_bind.
  rewrite (reply_text_Some _ _ Hd), (member_Some _ _ Hd). reflexivity.
Qed.

Lemma handleSend_finish_chat_failed newHistory r e st :
  await_json r = Throw e ∨ r = fetch_resolved (Normal JNull) →
  handleSend_finish (pending_chat newHistory) r st =
    setIsLoading false
      (setMessages
         (λ msgs, msgs ++
            [ai_message (JStr "Sorry, there was an error getting a response from the AI.")])
         st).
Proof.
  intros [Hr | ->]; unfold handleSend_finish; [rewrite Hr|]; reflexivity.
Qed.

(** C5.  A text-only submission starting from a history of length [n] leaves
    a history of length [n + 2] when the request completes with a reply (the
    user turn, then the assistant turn), and of length [n + 1] when the
    request fails on the network (the user turn alone). *)
Theorem text_send_history_growth url st n :
  image st = None → input st ≠ "" → length (chatHistory st) = n →
  let user_turn := mkOpenAIMessage role_user (JStr (input st)) in
  (∀ data, data ≠ JNull →
     let st' := handleSend url (fetch_resolved (Normal data)) st in
     chatHistory st' =
       chatHistory st ++
         [user_turn;
          mkOpenAIMessage role_assistant (or_else (get_prop data "result") (JStr ""))]
     ∧ length (chatHistory st') = (n + 2)%nat)
  ∧ (∀ e,
     let st' := handleSend url (fetch_rejected e) st in
     chatHistory st' = chatHistory st ++ [user_turn]
     ∧ length (chatHistory st') = (n + 1)%nat).
Proof.
  intros Himg Hin Hn user_turn.
  destruct (handleSend_start_text url st Himg Hin) as (st1 & Hstart & Hh & _).
  unfold handleSend. rewrite Hstart. split.
  - intros data Hd. cbv zeta.
    rewrite (handleSend_finish_chat_resolved _ _ _ Hd). cbn [chatHistory setIsLoading setChatHistory].
    rewrite <- app_assoc. split; [done|].
    rewrite length_app. simpl. lia.
  - intros e. cbv zeta.
    rewrite (handleSend_finish_chat_failed _ _ e) by (left; done).
    cbn [chatHistory setIsLoading setMessages]. rewrite Hh. split; [done|].
    rewrite length_app. simpl. lia.
Qed.

Lemma text_send_history_growth_witness :
  length (chatHistory first_send) = 1%nat
  ∧ length (chatHistory
      (handleSend (λ _, "blob:1")
         (fetch_resolved (Normal (JObj [("result", JStr "Restart it.")]))) first_send))
    = 3%nat
  ∧ length (chatHistory
      (handleSend (λ _, "blob:1") (fetch_rejected (Error "Failed to fetch")) first_send))
    = 2%nat.
Proof.
  pose proof (text_send_history_growth (λ _, "blob:1") first_send 1
                eq_refl ltac:(discriminate) eq_refl) as [Hok Hfail].
  split; [reflexivity|]. split.
  - apply (Hok (JObj [("result", JStr "Restart it.")])). discriminate.
  - apply (Hfail (Error "Failed to fetch")).
Defined.

Lemma handleCapture_start_spec url st b :
  videoRef st ≠ None →
  let fd := [("image", FFile (File_of_Blob "screenshot.png" b));
             ("prompt", FString (input_or (input st) default_prompt))] in
  ∃ st1, handleCapture_start url true (Some b) st = (st1, Some (pending_vision fd))
    ∧ chatHistory st1 = chatHistory st
    ∧ messages st1 =
        messages st ++
          [mkMessage sender_user
             (JStr (input_or (input st) "(Screenshot from screen share)"))
             (Some (url b))].
Proof.
  intros Hv fd. unfold handleCapture_start.
  destruct (videoRef st); [|done]. eexists. split; [reflexivity|]. done.
Qed.

(** C10, as stated, fails: a body that lacks [result] and carries no [error]
    either, such as a gateway's [{message: "Bad gateway"}], still gets its
    empty assistant turn, but the text displayed is the fixed fallback, not
    an error string of the response.  The render that follows shows exactly
    that state. *)
Lemma text_send_without_result_or_error_shows_fallback :
  let data := JObj [("message", JStr "Bad gateway")] in
  let st' := handleSend (λ _, "blob:1") (fetch_resolved (Normal data)) first_send in
  get_prop data "result" = None
  ∧ get_prop data "error" = None
  ∧ Rendering.handleSend (λ _, "blob:1") (fetch_resolved (Normal data)) first_send
    = Rendering.shows st'
  ∧ text <$> last (messages st') = Some (JStr "Sorry, I couldn't generate a response.")
  ∧ ¬ (∃ e, get_prop data "error" = Some (JStr e)
            ∧ text <$> last (messages st') = Some (JStr e)).
Proof.
  cbv zeta. split; [reflexivity|]. split; [reflexivity|]. split; [reflexivity|].
  split; [reflexivity|]. intros (e & He & _). discriminate He.
Qed.

(** ** The page and the chat route together *)

(** The body the page posts always passes the route's validation: the history
    it carries is never empty. *)
Lemma page_chat_request_is_valid openai url st :
  image st = None → input st ≠ "" →
  ∃ st1 newHistory,
    handleSend_start url st = (st1, Some (pending_chat newHistory))
    ∧ (ChatRoute.POST openai (Normal (chat_request_body newHistory))).2
      = [chat_payload (OpenAIMessage_json <$> newHistory)].
Proof.
  intros Himg Hin.
  destruct (handleSend_start_text url st Himg Hin) as (st1 & Hstart & _).
  eexists st1, _. split; [exact Hstart|].
  erewrite chat_POST_valid; [apply relay_calls | reflexivity |].
  rewrite fmap_app. by destruct (OpenAIMessage_json <$> chatHistory st).
Qed.

(** Whatever the route answers without a [result], it answers with a truthy
    [error], which is then the text the page displays. *)
Lemma chat_route_error_is_displayed openai req r calls :
  ChatRoute.POST openai req = (Normal r, calls) →
  get_prop (body r) "result" = None →
  ∃ e, get_prop (body r) "error" = Some e ∧ truthy e = true
    ∧ reply_text (body r) chat_fallback = Normal e.
Proof.
  intros Hpost Hres.
  assert (∃ e, body r = JObj [("error", e)] ∧ truthy e = true) as (e & Hb & He).
  { revert Hpost. unfold ChatRoute.POST, try_catch.
    destruct (_ ≫= _) as [[r' | err] calls'] eqn:Htry.
    - intros [= -> ->]. revert Htry.
      destruct req as [json | err]; [rewrite Eff_bind_lift_Normal | by rewrite Eff_bind_lift_Throw].
      destruct (member (Some json) "messages") as [messages | err];
        [rewrite Eff_bind_lift_Normal | by rewrite Eff_bind_lift_Throw].
      destruct (negb (Array_isArray messages) || length_is_zero messages).
      { intros [= <- <-]. by eexists. }
      rewrite Eff_bind_create.
      destruct (openai _) as [response | err]; [|done].
      destruct (member (Some response) "choices") as [choices | err];
        [rewrite Eff_bind_lift_Normal | by rewrite Eff_bind_lift_Throw].
      destruct (element choices 0) as [first | err];
        [rewrite Eff_bind_lift_Normal | by rewrite Eff_bind_lift_Throw].
      intros [= <- <-]. simpl in Hres. done.
    - destruct (member err "message") as [message | err'];
        [rewrite Eff_bind_lift_Normal | by rewrite Eff_bind_lift_Throw].
      intros [= <- <-]. eexists. split; [reflexivity|]. by apply or_else_truthy. }
  exists e. rewrite Hb. split; [done|]. split; [done|].
  unfold reply_text. simpl. unfold or_value. simpl. by rewrite He.
Qed.

(** ** The page and the vision route together *)

Lemma relay_status openai payload fallback r :
  (relay openai payload fallback).1 = Normal r → status r = 200 ∨ status r = 500.
Proof.
  unfold relay. rewrite Eff_bind_create.
  destruct (openai payload) as [response | e].
  - destruct (member (Some response) "choices") as [choices | e1];
      [rewrite Eff_bind_lift_Normal | rewrite Eff_bind_lift_Throw].
    + destruct (element choices 0) as [first | e2];
        [rewrite Eff_bind_lift_Normal | rewrite Eff_bind_lift_Throw].
      * intros [= <-]. by left.
      * unfold try_catch. destruct (member e2 "message"); intros [= <-]. by right.
    + unfold try_catch. destruct (member e1 "message"); intros [= <-]. by right.
  - unfold try_catch. destruct (member e "message"); intros [= <-]. by right.
Qed.

Lemma vision_POST_accepts openai f p :
  p ≠ "" →
  let fd := [("image", FFile f); ("prompt", FString p)] in
  (VisionRoute.POST openai (Normal fd)).2 = [VisionRoute.vision_payload f (FString p)]
  ∧ (∀ r, (VisionRoute.POST openai (Normal fd)).1 = Normal r → status r ≠ 400).
Proof.
  intros Hp fd.
  assert (VisionRoute.POST openai (Normal fd) =
            relay openai (VisionRoute.vision_payload f (FString p)) vision_fallback) as ->.
  { apply vision_POST_valid; [done..|]. by apply truthy_JStr. }
  split; [apply relay_calls|].
  intros r Hr. destruct (relay_status _ _ _ _ Hr) as [-> | ->]; done.
Qed.

(** C9.  An image submission built by the page, from the file picker or from
    a captured frame, carries a non-empty [prompt]: the user's text, or the
    fixed "Please help me with this issue." when that text is empty.  The
    vision route therefore never answers it with "No prompt provided.": the
    request passes validation and reaches the provider. *)
Theorem ui_image_prompt_never_empty url st :
  (∀ f, image st = Some f →
     ∃ st1 fd p,
       handleSend_start url st = (st1, Some (pending_vision fd))
       ∧ FormData_get "prompt" fd = Some (FString p)
       ∧ p ≠ ""
       ∧ (input st = "" → p = default_prompt)
       ∧ ∀ openai,
           (VisionRoute.POST openai (Normal fd)).1 ≠ Normal no_prompt_response
           ∧ (VisionRoute.POST openai (Normal fd)).2
             = [VisionRoute.vision_payload f (FString p)])
  ∧ (∀ b, videoRef st ≠ None →
     ∃ st1 fd p,
       handleCapture_start url true (Some b) st = (st1, Some (pending_vision fd))
       ∧ FormData_get "prompt" fd = Some (FString p)
       ∧ p ≠ ""
       ∧ (input st = "" → p = default_prompt)
       ∧ ∀ openai,
           (VisionRoute.POST openai (Normal fd)).1 ≠ Normal no_prompt_response
           ∧ (VisionRoute.POST openai (Normal fd)).2
             = [VisionRoute.vision_payload (File_of_Blob "screenshot.png" b) (FString p)]).
Proof.
  assert (input_or (input st) default_prompt ≠ "") as Hp
    by (by apply input_or_nonempty).
  assert (input st = "" → input_or (input st) default_prompt = default_prompt) as Hd
    by (by intros ->).
  split.
  - intros f Himg.
    destruct (handleSend_start_image url st f Himg) as (st1 & Hstart & _).
    eexists st1, _, _. split; [exact Hstart|]. split; [reflexivity|].
    split; [exact Hp|]. split; [exact Hd|]. intros openai.
    destruct (vision_POST_accepts openai f _ Hp) as [Hcalls Hstatus].
    split; [|exact Hcalls]. intros Hr. by apply Hstatus in Hr.
  - intros b Hv.
    destruct (handleCapture_start_spec url st b Hv) as (st1 & Hstart & _).
    eexists st1, _, _. split; [exact Hstart|]. split; [reflexivity|].
    split; [exact Hp|]. split; [exact Hd|]. intros openai.
    destruct (vision_POST_accepts openai (File_of_Blob "screenshot.png" b) _ Hp)
      as [Hcalls Hstatus].
    split; [|exact Hcalls]. intros Hr. by apply Hstatus in Hr.
Qed.

Lemma ui_image_prompt_never_empty_witness :
  (∃ st1 fd,
     handleSend_start (λ _, "blob:1") (image_send sample_file "") = (st1, Some (pending_vision fd))
     ∧ FormData_get "prompt" fd = Some (FString default_prompt))
  ∧ (∃ st1 fd,
     handleCapture_start (λ _, "blob:2") true (Some sample_blob) sharing_state
       = (st1, Some (pending_vision fd))
     ∧ FormData_get "prompt" fd = Some (FString default_prompt)).
Proof.
  split.
  - destruct (proj1 (ui_image_prompt_never_empty (λ _, "blob:1") (image_send sample_file ""))
                sample_file eq_refl) as (st1 & fd & p & Hstart & Hget & _ & Hdef & _).
    exists st1, fd. split; [exact Hstart|]. rewrite Hget, (Hdef eq_refl). reflexivity.
  - destruct (proj2 (ui_image_prompt_never_empty (λ _, "blob:2") sharing_state)
                sample_blob ltac:(discriminate)) as (st1 & fd & p & Hstart & Hget & _ & Hdef & _).
    exists st1, fd. split; [exact Hstart|]. rewrite Hget, (Hdef eq_refl). reflexivity.
Defined.

(** ** The page: persistence *)

Lemma keys_differ : key_messages ≠ key_chatHistory.
Proof. discriminate. Qed.

Lemma Message_json_roundtrip m : Message_of_json (Message_json m) = Some m.
Proof. by destruct m as [[] t [u|]]. Qed.

Lemma OpenAIMessage_json_roundtrip m : OpenAIMessage_of_json (OpenAIMessage_json m) = Some m.
Proof. by destruct m as [[] c]. Qed.

Lemma messages_json_roundtrip l : messages_of_json (messages_json l) = Some l.
Proof. apply mapM_fmap_Some, Message_json_roundtrip. Qed.

Lemma chatHistory_json_roundtrip l : chatHistory_of_json (chatHistory_json l) = Some l.
Proof. apply mapM_fmap_Some, OpenAIMessage_json_roundtrip. Qed.

Lemma mount_empty (ls : gmap string Stored) :
  ls !! key_messages = None → ls !! key_chatHistory = None →
  mount ls =
    ready initial_state
      (save_chatHistory initial_state (save_messages initial_state ls)).
Proof. intros Hm Hh. unfold mount. rewrite Hm, Hh. reflexivity. Qed.

(** Mounting on what the saving effects wrote restores both arrays. *)
Lemma mount_saved st (ls : gmap string Stored) :
  let ls' := save_chatHistory st (save_messages st ls) in
  let st' := setChatHistory (chatHistory st) (setMessages (λ _, messages st) initial_state) in
  mount ls' = ready st' ls'.
Proof.
  cbv zeta. unfold mount.
  assert (save_chatHistory st (save_messages st ls) !! key_messages
          = Some (json_text (messages_json (messages st)))) as ->.
  { unfold save_chatHistory, save_messages, JSON_stringify.
    rewrite lookup_insert_ne by (symmetry; apply keys_differ).
    apply lookup_insert_eq. }
  assert (save_chatHistory st (save_messages st ls) !! key_chatHistory
          = Some (json_text (chatHistory_json (chatHistory st)))) as ->.
  { unfold save_chatHistory, JSON_stringify. apply lookup_insert_eq. }
  unfold restore. cbn [saved_truthy JSON_parse].
  rewrite messages_json_roundtrip, chatHistory_json_roundtrip.
  f_equal. unfold save_chatHistory, save_messages, JSON_stringify.
  cbn [chatHistory messages setChatHistory setMessages initial_state].
  apply map_eq. intros k.
  destruct (decide (k = key_chatHistory)) as [-> | Hk1].
  { by rewrite !lookup_insert_eq. }
  rewrite !(lookup_insert_ne _ key_chatHistory) by done.
  destruct (decide (k = key_messages)) as [-> | Hk2].
  { by rewrite !lookup_insert_eq. }
  rewrite !lookup_insert_ne by done. done.
Qed.

(** C7.  Clearing the chat, from any state and any storage, empties the
    transcript, resets the history to the single fixed system turn and removes
    both storage entries.  Reloading the page then shows an empty transcript
    and a history holding exactly the system turn, whether the reload comes
    right after the handler or after the saving effects it triggers have
    run. *)
Theorem clear_chat_then_reload st (ls : gmap string Stored) :
  messages (handleClearChat st ls).1 = []
  ∧ chatHistory (handleClearChat st ls).1 = [system_turn]
  ∧ (handleClearChat st ls).2 !! key_messages = None
  ∧ (handleClearChat st ls).2 !! key_chatHistory = None
  ∧ (∃ st' ls', mount (handleClearChat st ls).2 = ready st' ls'
       ∧ messages st' = [] ∧ chatHistory st' = [system_turn])
  ∧ (∃ st' ls', mount (handleClearChat_committed st ls).2 = ready st' ls'
       ∧ messages st' = [] ∧ chatHistory st' = [system_turn]).
Proof.
  assert ((handleClearChat st ls).2 !! key_messages = None) as Hm.
  { unfold handleClearChat. cbn [snd].
    rewrite lookup_delete_ne by (symmetry; apply keys_differ).
    apply lookup_delete_eq. }
  assert ((handleClearChat st ls).2 !! key_chatHistory = None) as Hh.
  { unfold handleClearChat. cbn [snd]. apply lookup_delete_eq. }
  split; [done|]. split; [done|]. split; [exact Hm|]. split; [exact Hh|]. split.
  - rewrite (mount_empty _ Hm Hh). by eexists _, _.
  - unfold handleClearChat_committed.
    destruct (handleClearChat st ls) as [st1 ls1] eqn:Hclear. cbn [snd].
    assert (messages st1 = [] ∧ chatHistory st1 = [system_turn]) as [Hm1 Hh1].
    { unfold handleClearChat in Hclear. by simplify_eq. }
    rewrite (mount_saved st1 ls1), Hm1, Hh1. by eexists _, _.
Qed.

Lemma clear_chat_then_reload_witness :
  ∃ st' ls',
    mount (handleClearChat_committed
             (handleSend (λ _, "blob:1")
                (fetch_resolved (Normal (JObj [("result", JStr "Restart it.")]))) first_send)
             ∅).2
    = ready st' ls'
    ∧ messages st' = [] ∧ chatHistory st' = [system_turn].
Proof.
  destruct (clear_chat_then_reload
              (handleSend (λ _, "blob:1")
                 (fetch_resolved (Normal (JObj [("result", JStr "Restart it.")]))) first_send)
              ∅) as (_ & _ & _ & _ & _ & Hreload).
  exact Hreload.
Defined.

(** What the storage holds after a send, a clear and the saving effects, and
    what a reload makes of it. *)
Example clear_chat_then_reload_run :
  mount (handleClearChat_committed
           (handleSend (λ _, "blob:1")
              (fetch_resolved (Normal (JObj [("result", JStr "Restart it.")]))) first_send)
           ∅).2
  = ready initial_state
      (<[key_chatHistory := json_text (chatHistory_json [system_turn])]>
         (<[key_messages := json_text (JArr [])]> ∅)).
Proof.
  unfold handleClearChat_committed. cbn [handleClearChat snd].
  rewrite mount_saved. reflexivity.
Qed.

(** ** The page: screen sharing *)

Lemma release_count_app id (m m' : Media) :
  release_count id (m ++ m') = (release_count id m + release_count id m')%nat.
Proof. unfold release_count. by rewrite filter_app, length_app. Qed.

Lemma stop_calls_app id (m m' : Media) :
  stop_calls id (m ++ m') = (stop_calls id m + stop_calls id m')%nat.
Proof. unfold stop_calls. by rewrite filter_app, length_app. Qed.

Lemma foldl_track_stop (m : Media) ts :
  foldl (λ m t, track_stop t m) m ts = m ++ ((λ t, stop_called (track_id t)) <$> ts).
Proof.
  revert m. induction ts as [|t ts IH]; intros m; simpl.
  - by rewrite app_nil_r.
  - rewrite IH. unfold track_stop. by rewrite <- app_assoc.
Qed.

Lemma release_count_stop_calls id ts :
  release_count id ((λ t, stop_called (track_id t)) <$> ts)
  = length (filter (λ t, track_id t = id) ts).
Proof.
  unfold release_count. induction ts as [|t ts IH]; [done|].
  rewrite fmap_cons, !filter_cons. cbn [event_track].
  destruct (decide (track_id t = id)); simpl; by rewrite IH.
Qed.

Lemma stop_calls_of_stops id ts :
  stop_calls id ((λ t, stop_called (track_id t)) <$> ts)
  = length (filter (λ t, track_id t = id) ts).
Proof.
  unfold stop_calls. induction ts as [|t ts IH]; [done|].
  rewrite fmap_cons, !filter_cons. cbn [is_stop_call].
  destruct (decide (track_id t = id)) as [Heq | Hne].
  - rewrite decide_True by (by apply Nat.eqb_eq). simpl. by rewrite IH.
  - rewrite decide_False by (by rewrite Nat.eqb_eq). done.
Qed.

Lemma ended_false id m : ended id m = false ↔ release_count id m = 0%nat.
Proof.
  unfold ended. rewrite bool_decide_eq_false. split; [|lia].
  intros H. destruct (release_count id m); [done|]. by destruct H.
Qed.

Lemma ended_true id m : ended id m = true ↔ release_count id m ≠ 0%nat.
Proof. unfold ended. by rewrite bool_decide_eq_true. Qed.

(** The state a stop leaves does not depend on which closure ran. *)
Lemma handleStopScreenShare_state c c' st m m' :
  (handleStopScreenShare c st m).1 = (handleStopScreenShare c' st m').1.
Proof. reflexivity. Qed.

Lemma stop_clicked_NotSharing st m : NotSharing (stop_clicked st m).1.
Proof.
  unfold stop_clicked, handleStopScreenShare, NotSharing, render. cbn.
  destruct (videoRef st); done.
Qed.

Lemma tracks_with_id_absent id ts :
  id ∉ track_id <$> ts → filter (λ t, track_id t = id) ts = [].
Proof.
  induction ts as [|t ts IH]; [done|].
  rewrite fmap_cons, not_elem_of_cons. intros [Hne Hnotin].
  rewrite filter_cons_False by congruence. by apply IH.
Qed.

Lemma tracks_with_id_unique t ts :
  NoDup (track_id <$> ts) → t ∈ ts →
  length (filter (λ t', track_id t' = track_id t) ts) = 1%nat.
Proof.
  induction ts as [|t' ts IH]; [by intros _ ?%elem_of_nil|].
  rewrite fmap_cons, NoDup_cons, elem_of_cons. intros [Hnotin Hnd] [-> | Ht].
  - rewrite filter_cons_True by done. by rewrite tracks_with_id_absent.
  - rewrite filter_cons_False; [by apply IH|].
    intros Heq. apply Hnotin. rewrite Heq. by apply list_elem_of_fmap_2.
Qed.

(** A stop pressed by the user stops every track of the stream once. *)
Lemma stop_clicked_releases_each_track st stream (m : Media) t :
  screenStream st = Some stream →
  NoDup (track_id <$> getTracks stream) → t ∈ getTracks stream →
  release_count (track_id t) (stop_clicked st m).2 = S (release_count (track_id t) m)
  ∧ stop_calls (track_id t) (stop_clicked st m).2 = S (stop_calls (track_id t) m).
Proof.
  intros Hs Hnd Ht. unfold stop_clicked, handleStopScreenShare. rewrite Hs. cbn [snd].
  rewrite foldl_track_stop, release_count_app, stop_calls_app, release_count_stop_calls.
  rewrite (tracks_with_id_unique _ _ Hnd Ht). split; [lia|].
  rewrite stop_calls_of_stops, (tracks_with_id_unique _ _ Hnd Ht). lia.
Qed.

(** C8.  A screen-share session started from NotSharing, on the stream with one
    video track that [getDisplayMedia({ video: true })] delivers, ends the same
    way whether the user presses the stop button or the browser signals the
    end of the stream: both leave the same page state, which is NotSharing,
    and in both the track is ended and has been released exactly once: by the
    page's one [stop()] call in the first case, by the browser in the second,
    where the page calls [stop()] on nothing. *)
Theorem screen_share_stop_paths st0 stream t :
  NotSharing st0 → getTracks stream = [t] → is_video t = true →
  ∃ st1 l,
    handleStartScreenShare (Normal stream) st0 = (st1, Some l)
    ∧ Sharing stream st1
    ∧ ∀ st (m : Media),
        Sharing stream st → ended (track_id t) m = false →
        (stop_clicked st m).1 = (track_ended l st m).1
        ∧ NotSharing (stop_clicked st m).1
        ∧ release_count (track_id t) (stop_clicked st m).2 = 1%nat
        ∧ release_count (track_id t) (track_ended l st m).2 = 1%nat
        ∧ ended (track_id t) (stop_clicked st m).2 = true
        ∧ ended (track_id t) (track_ended l st m).2 = true
        ∧ stop_calls (track_id t) (stop_clicked st m).2 = S (stop_calls (track_id t) m)
        ∧ stop_calls (track_id t) (track_ended l st m).2 = stop_calls (track_id t) m.
Proof.
  intros (Hs0 & Hf0 & Hv0) Htracks Hvideo.
  eexists _, (mkListener t None). split; [|split].
  - unfold handleStartScreenShare, getVideoTracks.
    rewrite Htracks, filter_cons_True, filter_nil by done.
    cbn [lookup list_lookup]. by rewrite Hs0.
  - unfold Sharing. cbn. rewrite Hv0. done.
  - intros st m [Hs Hf] Hlive. apply ended_false in Hlive.
    assert (release_count (track_id t) (stop_clicked st m).2 = 1%nat) as Ha.
    { unfold stop_clicked, handleStopScreenShare. rewrite Hs, Htracks. cbn [snd foldl].
      unfold track_stop. rewrite release_count_app, Hlive.
      unfold release_count. rewrite filter_cons_True, filter_nil by done. done. }
    assert (release_count (track_id t) (track_ended (mkListener t None) st m).2 = 1%nat) as Hb.
    { unfold track_ended, handleStopScreenShare. cbn [snd listener_track listener_screenStream].
      rewrite release_count_app, Hlive.
      unfold release_count. rewrite filter_cons_True, filter_nil by done. done. }
    split; [reflexivity|]. split; [apply stop_clicked_NotSharing|].
    split; [exact Ha|]. split; [exact Hb|].
    split; [apply ended_true; lia|]. split; [apply ended_true; lia|]. split.
    + unfold stop_clicked, handleStopScreenShare. rewrite Hs, Htracks. cbn [snd foldl].
      unfold track_stop. rewrite stop_calls_app.
      unfold stop_calls at 2. rewrite filter_cons_True, filter_nil; [simpl; lia|].
      simpl. by apply Nat.eqb_eq.
    + unfold track_ended, handleStopScreenShare. cbn [snd listener_track listener_screenStream].
      rewrite stop_calls_app.
      unfold stop_calls at 2. rewrite filter_cons_False, filter_nil; [simpl; lia|].
      simpl. done.
Qed.

Lemma screen_share_stop_paths_witness :
  NotSharing initial_state
  ∧ ∃ st1 l,
      handleStartScreenShare (Normal screen_stream) initial_state = (st1, Some l)
      ∧ (stop_clicked (render st1) []).1 = (track_ended l (render st1) []).1
      ∧ release_count 7 (stop_clicked (render st1) []).2 = 1%nat
      ∧ release_count 7 (track_ended l (render st1) []).2 = 1%nat.
Proof.
  assert (NotSharing initial_state) as H0 by (by repeat split).
  split; [exact H0|].
  destruct (screen_share_stop_paths initial_state screen_stream screen_track
              H0 eq_refl eq_refl) as (st1 & l & Hstart & Hsharing & Hstop).
  exists st1, l. split; [exact Hstart|].
  assert (Sharing screen_stream (render st1)) as Hr.
  { destruct Hsharing as [Hs Hf]. unfold Sharing, render. rewrite Hf.
    destruct (videoRef st1); done. }
  destruct (Hstop (render st1) [] Hr eq_refl) as (Heq & _ & Ha & Hb & _).
  split; [exact Heq|]. split; [exact Ha | exact Hb].
Defined.

(** * Further properties *)

(** ** The routes, for every request *)

Lemma try_catch_Throw_nil {A} e (h : option JSON → Eff A) : try_catch (Throw e, []) h = h e.
Proof. unfold try_catch. by destruct (h e). Qed.

Lemma on_error_not_nullish j : j ≠ JNull → on_error (Some j) = (Normal (error_response j), []).
Proof. intros Hj. unfold on_error. by rewrite (member_Some _ _ Hj), Eff_bind_lift_Normal. Qed.

Lemma on_error_nullish e :
  nullish e = true → on_error e = (Throw (TypeError_read e "message"), []).
Proof. by destruct e as [[]|]. Qed.

Lemma error_response_is_failure j : is_failure (error_response j).
Proof.
  split; [done|]. eexists. split; [reflexivity|]. by apply or_else_truthy.
Qed.

Lemma on_error_outcome e :
  (nullish e = true ∧ on_error e = (Throw (TypeError_read e "message"), []))
  ∨ (∃ r, on_error e = (Normal r, []) ∧ is_failure r).
Proof.
  destruct (nullish e) eqn:Hn.
  - left. split; [done|]. by apply on_error_nullish.
  - right. apply not_nullish in Hn as (j & -> & Hj).
    exists (error_response j). split; [by apply on_error_not_nullish|].
    apply error_response_is_failure.
Qed.

Lemma TypeError_not_nullish v p : nullish (TypeError_read v p) = false.
Proof. done. Qed.

Lemma member_Throw_not_nullish v p e : member v p = Throw e → nullish e = false.
Proof. destruct v as [[]|]; simpl; intros [= <-]; done. Qed.

Lemma element_Throw_not_nullish v i e : element v i = Throw e → nullish e = false.
Proof. destruct v as [[]|]; simpl; intros [= <-]; done. Qed.

(** The route for every request: the guards, then [relay]. *)
Lemma chat_POST_unfold openai req :
  ChatRoute.POST openai req =
    match req with
    | Throw e => on_error e
    | Normal json =>
        match member (Some json) "messages" with
        | Throw e => on_error e
        | Normal (Some (JArr (x :: items))) =>
            relay openai (chat_payload (x :: items)) chat_fallback
        | Normal _ => (Normal no_messages_response, [])
        end
    end.
Proof.
  unfold ChatRoute.POST. destruct req as [json | e].
  - rewrite Eff_bind_lift_Normal.
    destruct (member (Some json) "messages") as [messages | e].
    + rewrite Eff_bind_lift_Normal.
      destruct messages as [[| | | | [|x items] |]|]; reflexivity.
    + rewrite Eff_bind_lift_Throw. apply try_catch_Throw_nil.
  - rewrite Eff_bind_lift_Throw. apply try_catch_Throw_nil.
Qed.

Lemma vision_POST_unfold openai req :
  VisionRoute.POST openai req =
    match req with
    | Throw e => on_error e
    | Normal fd =>
        match FormData_get "image" fd with
        | Some (FFile f) =>
            match FormData_get "prompt" fd with
            | Some p =>
                if entry_truthy (Some p)
                then relay openai (VisionRoute.vision_payload f p) vision_fallback
                else (Normal no_prompt_response, [])
            | None => (Normal no_prompt_response, [])
            end
        | _ => (Normal no_image_response, [])
        end
    end.
Proof.
  destruct req as [fd | e].
  - destruct (FormData_get "image" fd) as [[s | f]|] eqn:Hf.
    + apply vision_POST_no_image. by rewrite Hf.
    + destruct (FormData_get "prompt" fd) as [p|] eqn:Hp.
      * destruct (entry_truthy (Some p)) eqn:Ht.
        -- by apply vision_POST_valid.
        -- apply (vision_POST_no_prompt _ _ f Hf). by rewrite Hp.
      * apply (vision_POST_no_prompt _ _ f Hf). by rewrite Hp.
    + apply vision_POST_no_image. by rewrite Hf.
  - unfold VisionRoute.POST. rewrite Eff_bind_lift_Throw. apply try_catch_Throw_nil.
Qed.

Lemma relay_outcome openai payload fallback :
  fallback ≠ "" →
  ∃ c, relay openai payload fallback = (c, [payload])
    ∧ match c with
      | Normal r => is_result r ∨ is_failure r
      | Throw _ => ∃ e, openai payload = Throw e ∧ nullish e = true
      end.
Proof.
  intros Hfb. unfold relay. rewrite Eff_bind_create.
  assert (∀ e, nullish e = false →
            ∃ r, try_catch (Throw e, [payload])
                   (λ err, message ← lift (member err "message");
                           mret (NextResponse_json
                                   (JObj [("error", or_else message (JStr "Unknown error"))])
                                   500))
                 = (Normal r, [payload]) ∧ is_failure r) as Hcatch.
  { intros e (j & -> & Hj)%not_nullish. exists (error_response j).
    split; [|apply error_response_is_failure].
    unfold try_catch. by rewrite (member_Some _ _ Hj), Eff_bind_lift_Normal. }
  destruct (openai payload) as [response | e] eqn:Hcall.
  - destruct (member (Some response) "choices") as [choices | e1] eqn:Hm;
      [rewrite Eff_bind_lift_Normal | rewrite Eff_bind_lift_Throw].
    + destruct (element choices 0) as [first | e2] eqn:He;
        [rewrite Eff_bind_lift_Normal | rewrite Eff_bind_lift_Throw].
      * eexists. split; [reflexivity|]. left. split; [done|].
        eexists. split; [reflexivity|]. apply or_else_truthy. by apply truthy_JStr.
      * destruct (Hcatch e2 (element_Throw_not_nullish _ _ _ He)) as (r & -> & Hr).
        exists (Normal r). split; [done|]. by right.
    + destruct (Hcatch e1 (member_Throw_not_nullish _ _ _ Hm)) as (r & -> & Hr).
      exists (Normal r). split; [done|]. by right.
  - destruct (nullish e) eqn:Hn.
    + exists (Throw (TypeError_read e "message")). split; [|by exists e].
      unfold try_catch. by destruct e as [[]|].
    + destruct (Hcatch e Hn) as (r & -> & Hr).
      exists (Normal r). split; [done|]. by right.
Qed.

Lemma on_error_calls e : (on_error e).2 = [].
Proof. destruct (on_error_outcome e) as [[_ ->] | (r & -> & _)]; done. Qed.

(** X1.  Whatever the request and whatever the provider does, a route calls the
    provider at most once per invocation: nothing is retried. *)
Theorem routes_call_provider_at_most_once openai :
  (∀ req, (length (ChatRoute.POST openai req).2 ≤ 1)%nat)
  ∧ (∀ req, (length (VisionRoute.POST openai req).2 ≤ 1)%nat).
Proof.
  split; intros req.
  - rewrite chat_POST_unfold. destruct req as [json | e]; [|rewrite on_error_calls; simpl; lia].
    destruct (member (Some json) "messages") as [[[| | | | [|x items] |]|] | e];
      rewrite ?on_error_calls, ?relay_calls; simpl; lia.
  - rewrite vision_POST_unfold. destruct req as [fd | e]; [|rewrite on_error_calls; simpl; lia].
    destruct (FormData_get "image" fd) as [[s | f]|]; [simpl; lia | | simpl; lia].
    destruct (FormData_get "prompt" fd) as [p|]; [|simpl; lia].
    destruct (entry_truthy (Some p)); rewrite ?relay_calls; simpl; lia.
Qed.

(** X2.  An answer of a route has one of three shapes: 200 with a non-empty
    [result], after exactly one provider call; 400 with an error text, after
    no provider call; 500 with a non-empty [error], after at most one provider
    call.  In particular a 200 never carries an [error] and an error answer
    never carries a [result]. *)
Theorem route_answers_have_three_shapes openai :
  (∀ req r calls, ChatRoute.POST openai req = (Normal r, calls) →
     (is_result r ∧ length calls = 1%nat)
     ∨ (is_rejection r ∧ calls = [])
     ∨ (is_failure r ∧ (length calls ≤ 1)%nat))
  ∧ (∀ req r calls, VisionRoute.POST openai req = (Normal r, calls) →
     (is_result r ∧ length calls = 1%nat)
     ∨ (is_rejection r ∧ calls = [])
     ∨ (is_failure r ∧ (length calls ≤ 1)%nat)).
Proof.
  assert (∀ e r calls, on_error e = (Normal r, calls) →
            is_failure r ∧ (length calls ≤ 1)%nat) as Herr.
  { intros e r calls H.
    destruct (on_error_outcome e) as [[_ H'] | (r' & H' & Hr)]; rewrite H' in H; [done|].
    injection H as <- <-. split; [done | simpl; lia]. }
  assert (∀ payload fallback r calls, fallback ≠ "" →
            relay openai payload fallback = (Normal r, calls) →
            (is_result r ∧ length calls = 1%nat)
            ∨ (is_rejection r ∧ calls = [])
            ∨ (is_failure r ∧ (length calls ≤ 1)%nat)) as Hrelay.
  { intros payload fallback r calls Hfb H.
    destruct (relay_outcome openai payload fallback Hfb) as (c & H' & Hc).
    rewrite H' in H. injection H as -> <-.
    destruct Hc as [Hr | Hr]; [by left | right; right; split; [done | simpl; lia]]. }
  assert (∀ msg, msg ≠ "" →
            is_rejection (NextResponse_json (JObj [("error", JStr msg)]) 400)) as Hrej.
  { intros msg Hmsg. split; [done|]. by exists msg. }
  split; intros req r calls.
  - rewrite chat_POST_unfold. destruct req as [json | e]; [|by right; right; eapply Herr].
    destruct (member (Some json) "messages") as [[[| | | | [|x items] |]|] | e];
      try (intros [= <- <-]; right; left; split; [by apply Hrej | done]).
    + by apply Hrelay.
    + right; right. by eapply Herr.
  - rewrite vision_POST_unfold. destruct req as [fd | e]; [|by right; right; eapply Herr].
    destruct (FormData_get "image" fd) as [[s | f]|];
      try (intros [= <- <-]; right; left; split; [by apply Hrej | done]).
    destruct (FormData_get "prompt" fd) as [p|];
      [|intros [= <- <-]; right; left; split; [by apply Hrej | done]].
    destruct (entry_truthy (Some p));
      [|intros [= <- <-]; right; left; split; [by apply Hrej | done]].
    by apply Hrelay.
Qed.

Lemma route_answers_have_three_shapes_witness :
  is_rejection no_messages_response ∧ is_rejection no_image_response.
Proof.
  pose proof (route_answers_have_three_shapes (λ _, Throw undefined)) as [Hchat Hvision].
  split.
  - destruct (Hchat (Normal (JObj [])) no_messages_response [] eq_refl)
      as [[[H _] _] | [[H _] | [[H _] _]]]; [discriminate H | exact H | discriminate H].
  - destruct (Hvision (Normal []) no_image_response [] eq_refl)
      as [[[H _] _] | [[H _] | [[H _] _]]]; [discriminate H | exact H | discriminate H].
Defined.

(** X3.  A request whose body cannot be read ([req.json()], [req.formData()]
    throws an error) is answered 500 with that error's message, or "Unknown
    error", and no provider call is made; so is a chat request whose body is
    the JSON value [null]. *)
Theorem routes_unreadable_request openai j :
  j ≠ JNull →
  ChatRoute.POST openai (Throw (Some j)) = (Normal (error_response j), [])
  ∧ VisionRoute.POST openai (Throw (Some j)) = (Normal (error_response j), [])
  ∧ ∃ r, ChatRoute.POST openai (Normal JNull) = (Normal r, []) ∧ is_failure r.
Proof.
  intros Hj. rewrite chat_POST_unfold, vision_POST_unfold.
  split; [by apply on_error_not_nullish|]. split; [by apply on_error_not_nullish|].
  rewrite chat_POST_unfold. cbn [member].
  eexists. split; [by apply on_error_not_nullish|]. apply error_response_is_failure.
Qed.

Lemma routes_unreadable_request_witness :
  ChatRoute.POST (λ _, Throw undefined) (Throw (Error "Unexpected end of JSON input"))
  = (Normal (NextResponse_json
               (JObj [("error", JStr "Unexpected end of JSON input")]) 500), []).
Proof.
  apply (routes_unreadable_request (λ _, Throw undefined)
           (JObj [("message", JStr "Unexpected end of JSON input")])).
  discriminate.
Defined.

(** X4.  When neither the provider nor the reading of the request throws
    [null] or [undefined], a route always returns a response: no exception
    leaves the handler, whatever the request. *)
Theorem routes_never_propagate openai :
  (∀ payload e, openai payload = Throw e → nullish e = false) →
  (∀ req, (∀ e, req = Throw e → nullish e = false) →
     ∃ r calls, ChatRoute.POST openai req = (Normal r, calls))
  ∧ (∀ req, (∀ e, req = Throw e → nullish e = false) →
     ∃ r calls, VisionRoute.POST openai req = (Normal r, calls)).
Proof.
  intros Hprov.
  assert (∀ e, nullish e = false → ∃ r calls, on_error e = (Normal r, calls)) as Herr.
  { intros e (j & -> & Hj)%not_nullish. eexists _, _. by apply on_error_not_nullish. }
  assert (∀ payload fallback, fallback ≠ "" →
            ∃ r calls, relay openai payload fallback = (Normal r, calls)) as Hrelay.
  { intros payload fallback Hfb.
    destruct (relay_outcome openai payload fallback Hfb) as ([r | e0] & H & Hc).
    - by eexists _, _.
    - destruct Hc as (e & Hcall & Hn). by rewrite (Hprov _ _ Hcall) in Hn. }
  split; intros req Hreq.
  - rewrite chat_POST_unfold. destruct req as [json | e]; [|by apply Herr, Hreq].
    destruct (member (Some json) "messages") as [[[| | | | [|x items] |]|] | e] eqn:Hm;
      try (by eexists _, _).
    + by apply Hrelay.
    + by eapply Herr, member_Throw_not_nullish.
  - rewrite vision_POST_unfold. destruct req as [fd | e]; [|by apply Herr, Hreq].
    destruct (FormData_get "image" fd) as [[s | f]|]; try (by eexists _, _).
    destruct (FormData_get "prompt" fd) as [p|]; [|by eexists _, _].
    destruct (entry_truthy (Some p)); [|by eexists _, _].
    by apply Hrelay.
Qed.

Lemma routes_never_propagate_witness :
  ∃ r calls,
    ChatRoute.POST (λ _, Throw (Error "Connection error.")) (Normal sample_body)
    = (Normal r, calls).
Proof.
  apply (routes_never_propagate (λ _, Throw (Error "Connection error."))).
  - intros payload e [= <-]. reflexivity.
  - intros e H. discriminate H.
Defined.

(** X5.  The provider is called exactly for the requests that pass validation:
    by the chat route when [messages] is a non-empty array, by the vision
    route when [image] is a file and [prompt] is a non-empty string or a
    file. *)
Theorem provider_called_iff_valid openai :
  (∀ json, (ChatRoute.POST openai (Normal json)).2 ≠ []
           ↔ ∃ x items, get_prop json "messages" = Some (JArr (x :: items)))
  ∧ (∀ fd, (VisionRoute.POST openai (Normal fd)).2 ≠ []
           ↔ ∃ f p, FormData_get "image" fd = Some (FFile f)
                    ∧ FormData_get "prompt" fd = Some p
                    ∧ entry_truthy (Some p) = true).
Proof.
  split.
  - intros json. rewrite chat_POST_unfold.
    destruct (member (Some json) "messages") as [messages | e] eqn:Hm.
    + assert (get_prop json "messages" = messages) as ->.
      { destruct json; simpl in Hm; by simplify_eq. }
      destruct messages as [[| | | | [|x items] |]|];
        try (split; [done | by intros (? & ? & ?)]).
      rewrite relay_calls. split; [by eexists _, _ | done].
    + rewrite on_error_calls. split; [done|]. intros (x & items & H).
      apply get_prop_Some_not_null in H. by rewrite (member_Some _ _ H) in Hm.
  - intros fd. rewrite vision_POST_unfold.
    destruct (FormData_get "image" fd) as [[s | f]|];
      try (split; [done | by intros (? & ? & ? & ?)]).
    destruct (FormData_get "prompt" fd) as [p|];
      [|split; [done | by intros (? & ? & ? & ? & ?)]].
    destruct (entry_truthy (Some p)) eqn:Ht.
    + rewrite relay_calls. split; [by eexists _, _ | done].
    + split; [done|]. intros (f' & p' & _ & [= <-] & Ht'). congruence.
Qed.

(** ** The page: every send *)

Lemma vision_reply_resolved data st :
  data ≠ JNull →
  vision_reply (fetch_resolved (Normal data)) st =
    setIsLoading false
      (setMessages
         (λ msgs, msgs ++
            [ai_message
               (or_else (or_value (get_prop data "result") (get_prop data "error"))
                        (JStr vision_fallback))])
         st).
Proof.
  intros Hd. unfold vision_reply, await_json, mbind, Completion_bind.
  by rewrite (reply_text_Some _ _ Hd).
Qed.

Lemma handleSend_finish_frame p r st :
  let st' := handleSend_finish p r st in
  isLoading st' = false ∧ input st' = input st ∧ image st' = image st
  ∧ screenStream st' = screenStream st ∧ isScreenSharing st' = isScreenSharing st
  ∧ videoRef st' = videoRef st.
Proof.
  cbv zeta. destruct p as [fd | newHistory]; unfold handleSend_finish, vision_reply.
  - destruct (await_json r ≫= _); done.
  - destruct (await_json r ≫= _) as [[t c] | e]; done.
Qed.

Lemma handleSend_start_frame url st :
  let st1 := (handleSend_start url st).1 in
  screenStream st1 = screenStream st ∧ isScreenSharing st1 = isScreenSharing st
  ∧ videoRef st1 = videoRef st.
Proof.
  cbv zeta. unfold handleSend_start.
  destruct (String.eqb (input st) "" && _); [done|]. by destruct (image st).
Qed.

(** X6.  [handleSend] does nothing at all exactly when there is neither text
    nor a pending image: no message is appended, no request is issued and the
    state is left as it was. *)
Theorem handleSend_noop_iff url st :
  ((handleSend_start url st).2 = None ↔ input st = "" ∧ image st = None)
  ∧ (input st = "" → image st = None → ∀ r, handleSend url r st = st).
Proof.
  assert (input st = "" → image st = None → handleSend_start url st = (st, None)) as Hnoop.
  { intros Hi Him. unfold handleSend_start. by rewrite Hi, Him. }
  split; [split|].
  - unfold handleSend_start.
    destruct (String.eqb_spec (input st) "") as [Hi | Hi]; destruct (image st) as [f|];
      simpl; done.
  - intros [Hi Him]. by rewrite Hnoop.
  - intros Hi Him r. unfold handleSend. by rewrite Hnoop.
Qed.

Lemma handleSend_noop_iff_witness :
  handleSend (λ _, "blob:1") (fetch_rejected undefined) initial_state = initial_state.
Proof.
  apply (proj2 (handleSend_noop_iff (λ _, "blob:1") initial_state)); reflexivity.
Defined.

Lemma handleSend_clears_image url r st :
  input st ≠ "" ∨ image st ≠ None → image (handleSend url r st) = None.
Proof.
  intros Hsome. unfold handleSend.
  destruct (handleSend_start url st) as [st1 [p|]] eqn:Hstart.
  - rewrite (proj1 (proj2 (proj2 (handleSend_finish_frame p r st1)))).
    revert Hstart. unfold handleSend_start.
    destruct (String.eqb (input st) "" && _); [done|].
    destruct (image st); by intros [= <- _].
  - revert Hstart. unfold handleSend_start.
    destruct (String.eqb_spec (input st) "") as [Hin | Hin];
      destruct (image st) as [f|]; simpl; try done.
    by destruct Hsome.
Qed.

Lemma handleSend_rejected_history url e st :
  image st = None → input st ≠ "" →
  chatHistory (handleSend url (fetch_rejected e) st)
  = chatHistory st ++ [mkOpenAIMessage role_user (JStr (input st))].
Proof.
  intros Himg Hin.
  destruct (handleSend_start_text url st Himg Hin) as (st1 & Hstart & Hh & _).
  unfold handleSend. rewrite Hstart.
  by rewrite (handleSend_finish_chat_failed _ _ e) by by left.
Qed.

(** X9.  After a text send that failed on the network, the next text send
    posts a history in which the failed user turn is directly followed by the
    new one: the turn is replayed, with no assistant turn between the two. *)
Theorem retry_after_failure_replays_user_turn url e st next :
  image st = None → input st ≠ "" → next ≠ "" →
  (handleSend_start url (setInput next (handleSend url (fetch_rejected e) st))).2
  = Some (pending_chat
            (chatHistory st ++
               [mkOpenAIMessage role_user (JStr (input st));
                mkOpenAIMessage role_user (JStr next)])).
Proof.
  intros Himg Hin Hnext.
  pose proof (handleSend_clears_image url (fetch_rejected e) st ltac:(by left)) as Himg'.
  pose proof (handleSend_rejected_history url e st Himg Hin) as Hh.
  destruct (handleSend_start_text url (setInput next (handleSend url (fetch_rejected e) st)))
    as (st2 & Hstart & _); [exact Himg' | exact Hnext |].
  rewrite Hstart. cbn [snd chatHistory input setInput].
  by rewrite Hh, <- app_assoc.
Qed.

Lemma retry_after_failure_replays_user_turn_witness :
  (handleSend_start (λ _, "blob:1")
     (setInput "still broken"
        (handleSend (λ _, "blob:1") (fetch_rejected undefined) first_send))).2
  = Some (pending_chat
            [system_turn;
             mkOpenAIMessage role_user (JStr "printer not working");
             mkOpenAIMessage role_user (JStr "still broken")]).
Proof.
  apply (retry_after_failure_replays_user_turn (λ _, "blob:1") undefined first_send
           "still broken"); [reflexivity | discriminate | discriminate].
Defined.


(** ** The page, a route and the provider together *)

Lemma chat_request_passes st :
  let newHistory := chatHistory st ++ [mkOpenAIMessage role_user (JStr (input st))] in
  ∀ openai,
    ChatRoute.POST openai (Normal (chat_request_body newHistory))
    = relay openai (chat_payload (OpenAIMessage_json <$> newHistory)) chat_fallback.
Proof.
  intros newHistory openai. apply chat_POST_valid; [reflexivity|].
  subst newHistory. rewrite fmap_app. by destruct (OpenAIMessage_json <$> chatHistory st).
Qed.

Lemma or_value_truthy c w : truthy c = true → or_value (Some c) w = Some c.
Proof. intros Hc. unfold or_value. simpl. by rewrite Hc. Qed.

(** X10.  A text send, the chat route and a provider that returns a completion
    with a non-empty first content [c], taken together: the provider is
    called once, with the whole history followed by the new user turn; the
    page shows [c] after the user's message, and the history gains the user
    turn followed by an assistant turn holding [c]. *)
Theorem text_send_end_to_end openai url st response choices c :
  image st = None → input st ≠ "" →
  let newHistory := chatHistory st ++ [mkOpenAIMessage role_user (JStr (input st))] in
  let payload := chat_payload (OpenAIMessage_json <$> newHistory) in
  openai payload = Normal response →
  get_prop response "choices" = Some (JArr choices) →
  first_choice_content choices = Some c → truthy c = true →
  (handleSend_start url st).2 = Some (pending_chat newHistory)
  ∧ ∃ r, ChatRoute.POST openai (Normal (chat_request_body newHistory)) = (Normal r, [payload])
      ∧ status r = 200
      ∧ messages (handleSend url (fetch_from r) st) =
          messages st ++ [mkMessage sender_user (JStr (input st)) None; ai_message c]
      ∧ chatHistory (handleSend url (fetch_from r) st) =
          newHistory ++ [mkOpenAIMessage role_assistant c].
Proof.
  intros Himg Hin newHistory payload Hcall Hch Hc Ht.
  destruct (handleSend_start_text url st Himg Hin) as (st1 & Hstart & Hh & Hm).
  split; [by rewrite Hstart|].
  eexists. split.
  { rewrite (chat_request_passes st). by eapply relay_success. }
  split; [done|].
  unfold handleSend, fetch_from. rewrite Hstart. cbn [body NextResponse_json].
  rewrite handleSend_finish_chat_resolved by done.
  cbn [messages chatHistory setIsLoading setChatHistory setMessages get_prop lookup_prop].
  rewrite Hc. cbn [String.eqb Ascii.eqb Bool.eqb].
  rewrite (or_else_Some_truthy c) by done. cbn [String.eqb Ascii.eqb Bool.eqb].
  rewrite (or_value_truthy c) by done. rewrite !(or_else_Some_truthy c) by done.
  by rewrite Hm, <- app_assoc.
Qed.

Lemma text_send_end_to_end_witness :
  ∃ r,
    ChatRoute.POST (λ _, Normal (sample_completion (JStr "Restart the printer.")))
      (Normal (chat_request_body
                 [system_turn; mkOpenAIMessage role_user (JStr "printer not working")]))
    = (Normal r,
       [chat_payload
          (OpenAIMessage_json <$>
             [system_turn; mkOpenAIMessage role_user (JStr "printer not working")])])
    ∧ chatHistory (handleSend (λ _, "blob:1") (fetch_from r) first_send)
      = [system_turn;
         mkOpenAIMessage role_user (JStr "printer not working");
         mkOpenAIMessage role_assistant (JStr "Restart the printer.")].
Proof.
  destruct (text_send_end_to_end
              (λ _, Normal (sample_completion (JStr "Restart the printer.")))
              (λ _, "blob:1") first_send
              (sample_completion (JStr "Restart the printer."))
              (sample_choices (JStr "Restart the printer."))
              (JStr "Restart the printer.")
              eq_refl ltac:(discriminate) eq_refl eq_refl eq_refl eq_refl)
    as (_ & r & Hpost & _ & _ & Hhist).
  exists r. split; [exact Hpost | exact Hhist].
Defined.

(** X11.  A text send, the chat route and a provider that throws an error with
    a non-empty message [m], taken together: the route answers 500, the page
    shows [m] as the assistant's message, and the history gains the user turn
    followed by an assistant turn whose content is the empty string. *)
Theorem text_send_provider_error_end_to_end openai url st j m :
  image st = None → input st ≠ "" →
  let newHistory := chatHistory st ++ [mkOpenAIMessage role_user (JStr (input st))] in
  let payload := chat_payload (OpenAIMessage_json <$> newHistory) in
  openai payload = Throw (Some j) →
  get_prop j "message" = Some m → truthy m = true →
  ∃ r, ChatRoute.POST openai (Normal (chat_request_body newHistory)) = (Normal r, [payload])
    ∧ status r = 500
    ∧ messages (handleSend url (fetch_from r) st) =
        messages st ++ [mkMessage sender_user (JStr (input st)) None; ai_message m]
    ∧ chatHistory (handleSend url (fetch_from r) st) =
        newHistory ++ [mkOpenAIMessage role_assistant (JStr "")].
Proof.
  intros Himg Hin newHistory payload Hcall Hmsg Ht.
  destruct (handleSend_start_text url st Himg Hin) as (st1 & Hstart & Hh & Hm).
  exists (error_response j). split.
  { rewrite (chat_request_passes st). apply relay_throw; [done|].
    by eapply get_prop_Some_not_null. }
  split; [done|].
  unfold handleSend, fetch_from, error_response. rewrite Hstart, Hmsg.
  cbn [body NextResponse_json]. rewrite (or_else_Some_truthy m) by done.
  rewrite handleSend_finish_chat_resolved by done.
  cbn [messages chatHistory setIsLoading setChatHistory setMessages get_prop lookup_prop].
  cbn [String.eqb Ascii.eqb Bool.eqb]. unfold or_value. cbn [ToBoolean].
  rewrite (or_else_Some_truthy m) by done.
  by rewrite Hm, <- app_assoc.
Qed.

Lemma text_send_provider_error_end_to_end_witness :
  ∃ r,
    status r = 500
    ∧ messages (handleSend (λ _, "blob:1") (fetch_from r) first_send)
      = [mkMessage sender_user (JStr "printer not working") None;
         ai_message (JStr "Connection error.")].
Proof.
  destruct (text_send_provider_error_end_to_end
              (λ _, Throw (Error "Connection error.")) (λ _, "blob:1") first_send
              (JObj [("message", JStr "Connection error.")]) (JStr "Connection error.")
              eq_refl ltac:(discriminate) eq_refl eq_refl eq_refl)
    as (r & _ & Hstatus & Hmsgs & _).
  exists r. split; [exact Hstatus | exact Hmsgs].
Defined.

(** X12.  An image send, the vision route and a provider that returns a
    completion with a non-empty first content [c], taken together: the form
    the page posts passes validation, the provider is called once with the
    prompt and the image as a base64 data URL, the page shows [c] after the
    user's message, and the history is left alone. *)
Theorem image_send_end_to_end openai url st f response choices c :
  image st = Some f →
  let prompt := FString (input_or (input st) default_prompt) in
  let fd := [("image", FFile f); ("prompt", prompt)] in
  let payload := VisionRoute.vision_payload f prompt in
  openai payload = Normal response →
  get_prop response "choices" = Some (JArr choices) →
  first_choice_content choices = Some c → truthy c = true →
  (handleSend_start url st).2 = Some (pending_vision fd)
  ∧ ∃ r, VisionRoute.POST openai (Normal fd) = (Normal r, [payload])
      ∧ status r = 200
      ∧ messages (handleSend url (fetch_from r) st) =
          messages st ++
            [mkMessage sender_user (JStr (input st)) (Some (url (File_blob f)));
             ai_message c]
      ∧ chatHistory (handleSend url (fetch_from r) st) = chatHistory st.
Proof.
  intros Himg prompt fd payload Hcall Hch Hc Ht. subst prompt fd payload.
  destruct (handleSend_start_image url st f Himg) as (st1 & Hstart & Hh & _ & Hm).
  split; [by rewrite Hstart|].
  eexists. split.
  { erewrite vision_POST_valid; [by eapply relay_success | reflexivity | reflexivity |].
    apply truthy_JStr. by apply input_or_nonempty. }
  split; [done|].
  unfold handleSend, fetch_from. rewrite Hstart. cbn [body NextResponse_json handleSend_finish].
  rewrite vision_reply_resolved by done.
  cbn [messages chatHistory setIsLoading setMessages get_prop lookup_prop].
  rewrite Hc. cbn [String.eqb Ascii.eqb Bool.eqb].
  rewrite (or_else_Some_truthy c) by done. cbn [String.eqb Ascii.eqb Bool.eqb].
  rewrite (or_value_truthy c) by done. rewrite (or_else_Some_truthy c) by done.
  by rewrite Hm, Hh, <- app_assoc.
Qed.

Lemma image_send_end_to_end_witness :
  ∃ r,
    VisionRoute.POST (λ _, Normal (sample_completion (JStr "It is a driver error.")))
      (Normal [("image", FFile sample_file); ("prompt", FString default_prompt)])
    = (Normal r, [VisionRoute.vision_payload sample_file (FString default_prompt)])
    ∧ messages (handleSend (λ _, "blob:1") (fetch_from r) (image_send sample_file ""))
      = [mkMessage sender_user (JStr "") (Some "blob:1");
         ai_message (JStr "It is a driver error.")].
Proof.
  destruct (image_send_end_to_end
              (λ _, Normal (sample_completion (JStr "It is a driver error.")))
              (λ _, "blob:1") (image_send sample_file "") sample_file
              (sample_completion (JStr "It is a driver error."))
              (sample_choices (JStr "It is a driver error."))
              (JStr "It is a driver error.")
              eq_refl eq_refl eq_refl eq_refl eq_refl)
    as (_ & r & Hpost & _ & Hmsgs & _).
  exists r. split; [exact Hpost | exact Hmsgs].
Defined.

(** ** The page: storage *)

(** X13.  What the two saving effects wrote is what a reload restores: for
    every state, mounting the page on the saved storage gives back the same
    transcript and the same history, leaves the storage as it is, and starts
    with an empty text box, no pending image, no request out and no screen
    share (none of these is persisted). *)
Theorem reload_restores_saved_session st (ls : gmap string Stored) :
  ∃ st',
    mount (save_chatHistory st (save_messages st ls))
    = ready st' (save_chatHistory st (save_messages st ls))
    ∧ messages st' = messages st ∧ chatHistory st' = chatHistory st
    ∧ input st' = "" ∧ image st' = None ∧ isLoading st' = false ∧ NotSharing st'.
Proof.
  pose proof (mount_saved st ls) as H. cbv zeta in H.
  eexists. split; [exact H|]. repeat split.
Qed.

Lemma mount_ready_inv (ls ls' : gmap string Stored) st :
  mount ls = ready st ls' →
  ls' = save_chatHistory st (save_messages st ls)
  ∧ input st = "" ∧ image st = None ∧ isLoading st = false ∧ NotSharing st.
Proof.
  unfold mount, restore.
  destruct (ls !! key_messages) as [[v | s]|] eqn:Hm;
    destruct (ls !! key_chatHistory) as [[w | u]|] eqn:Hh;
    cbn [saved_truthy JSON_parse];
    repeat match goal with
      | |- context [messages_of_json ?v] => destruct (messages_of_json v)
      | |- context [chatHistory_of_json ?w] => destruct (chatHistory_of_json w)
      | |- context [String.eqb ?s ""] => destruct (String.eqb s "")
      end;
    cbn [negb]; try discriminate;
    intros [= <- <-]; (split; [|by repeat split]);
    unfold save_chatHistory, save_messages, JSON_stringify;
    cbn [messages chatHistory render isScreenSharing setChatHistory setMessages
         set_videoRef initial_state];
    apply map_eq; intros k;
    (destruct (decide (k = key_chatHistory)) as [-> | Hk1];
     [rewrite ?lookup_insert_eq;
      rewrite ?(lookup_insert_ne _ key_messages key_chatHistory) by apply keys_differ;
      by rewrite ?lookup_insert_eq |]);
    (destruct (decide (k = key_messages)) as [-> | Hk2];
     [rewrite ?(lookup_insert_ne _ key_chatHistory key_messages)
        by (symmetry; apply keys_differ);
      rewrite ?lookup_insert_eq;
      rewrite ?(lookup_insert_ne _ key_chatHistory key_messages)
        by (symmetry; apply keys_differ);
      by rewrite ?lookup_insert_eq |]);
    by rewrite !lookup_insert_ne by done.
Qed.

(** X14.  Whenever mounting succeeds, the storage it leaves holds exactly the
    serialised transcript and history of the state it shows, every other key
    is untouched, and mounting again on that storage shows the same state
    and leaves the same storage. *)
Theorem mount_leaves_storage_in_sync (ls ls' : gmap string Stored) st :
  mount ls = ready st ls' →
  ls' !! key_messages = Some (JSON_stringify (messages_json (messages st)))
  ∧ ls' !! key_chatHistory = Some (JSON_stringify (chatHistory_json (chatHistory st)))
  ∧ (∀ k, k ≠ key_messages → k ≠ key_chatHistory → ls' !! k = ls !! k)
  ∧ mount ls' = ready st ls'.
Proof.
  intros (-> & Hi & Him & Hl & Hs & Hf & Hv)%mount_ready_inv.
  unfold save_chatHistory, save_messages. split; [|split; [|split]].
  - rewrite lookup_insert_ne by (symmetry; apply keys_differ). apply lookup_insert_eq.
  - apply lookup_insert_eq.
  - intros k Hk1 Hk2. by rewrite !lookup_insert_ne.
  - pose proof (mount_saved st ls) as H. cbv zeta in H.
    unfold save_chatHistory, save_messages in H. rewrite H. f_equal.
    destruct st. simpl in *. by subst.
Qed.

Lemma mount_leaves_storage_in_sync_witness :
  ∃ st ls',
    mount {[ key_messages := json_text (JArr []); "theme" := other_text "dark" ]}
    = ready st ls'
    ∧ ls' !! "theme" = Some (other_text "dark")
    ∧ ls' !! key_chatHistory = Some (JSON_stringify (chatHistory_json (chatHistory st))).
Proof.
  assert (mount {[ key_messages := json_text (JArr []); "theme" := other_text "dark" ]}
          = ready initial_state
              (save_chatHistory initial_state
                 (save_messages initial_state
                    (save_chatHistory initial_state
                       (save_messages initial_state
                          {[ key_messages := json_text (JArr []);
                             "theme" := other_text "dark" ]}))))) as Hmount.
  { reflexivity. }
  destruct (mount_leaves_storage_in_sync _ _ _ Hmount) as (_ & Hh & Hother & _).
  eexists _, _. split; [exact Hmount|]. split; [|exact Hh].
  rewrite Hother by discriminate. reflexivity.
Defined.

(** X15.  A stored entry that is not JSON (and not empty) makes mounting
    crash: [JSON.parse] throws inside the loading effect and nothing catches
    it.  This holds for the transcript entry whatever the history entry is,
    and for the history entry when the transcript entry is absent or held a
    transcript. *)
Theorem mount_crashes_on_malformed_entry (ls : gmap string Stored) s :
  s ≠ "" →
  (ls !! key_messages = Some (other_text s) → ∃ e, mount ls = crashed e)
  ∧ (ls !! key_chatHistory = Some (other_text s) →
     ls !! key_messages = None
     ∨ (∃ l, ls !! key_messages = Some (json_text (messages_json l))) →
     ∃ e, mount ls = crashed e).
Proof.
  intros Hs. assert (String.eqb s "" = false) as Hneq by by apply String.eqb_neq.
  split.
  - intros Hm. unfold mount, restore. rewrite Hm. cbn [saved_truthy JSON_parse].
    rewrite Hneq. by eexists.
  - intros Hh [Hm | [l Hm]]; unfold mount, restore; rewrite Hm, Hh;
      cbn [saved_truthy JSON_parse]; rewrite ?messages_json_roundtrip, Hneq; by eexists.
Qed.

Lemma mount_crashes_on_malformed_entry_witness :
  ∃ e, mount {[ key_messages := other_text "[{" ]} = crashed e.
Proof.
  apply (proj1 (mount_crashes_on_malformed_entry
                  {[ key_messages := other_text "[{" ]} "[{" ltac:(discriminate))).
  reflexivity.
Defined.

(** X16.  An entry that is absent or holds the empty string is skipped by the
    loading effect: when both entries are so, the page starts from its
    defaults (empty transcript, the single system turn) and writes them to
    the storage. *)
Theorem mount_skips_absent_and_empty_entries (ls : gmap string Stored) :
  ls !! key_messages = None ∨ ls !! key_messages = Some (other_text "") →
  ls !! key_chatHistory = None ∨ ls !! key_chatHistory = Some (other_text "") →
  mount ls
  = ready initial_state (save_chatHistory initial_state (save_messages initial_state ls)).
Proof.
  intros [Hm | Hm] [Hh | Hh]; unfold mount, restore; rewrite Hm, Hh; reflexivity.
Qed.

Lemma mount_skips_absent_and_empty_entries_witness :
  mount {[ key_messages := other_text "" ]}
  = ready initial_state
      (save_chatHistory initial_state
         (save_messages initial_state {[ key_messages := other_text "" ]})).
Proof.
  apply mount_skips_absent_and_empty_entries; [right | left]; reflexivity.
Defined.

(** ** The page: what each handler leaves alone *)

Lemma render_frame st :
  messages (render st) = messages st ∧ chatHistory (render st) = chatHistory st
  ∧ input (render st) = input st ∧ image (render st) = image st
  ∧ isLoading (render st) = isLoading st
  ∧ screenStream (render st) = screenStream st
  ∧ isScreenSharing (render st) = isScreenSharing st.
Proof.
  unfold render. destruct (isScreenSharing st) eqn:H; destruct (videoRef st);
    repeat split; simpl; congruence.
Qed.

Lemma render_videoRef st : videoRef (render st) = None ↔ isScreenSharing st = false.
Proof.
  unfold render. destruct (isScreenSharing st) eqn:H; destruct (videoRef st) eqn:Hv;
    simpl; rewrite ?Hv; split; congruence.
Qed.

Lemma handleSend_share_frame url r st :
  screenStream (handleSend url r st) = screenStream st
  ∧ isScreenSharing (handleSend url r st) = isScreenSharing st
  ∧ videoRef (handleSend url r st) = videoRef st.
Proof.
  pose proof (handleSend_start_frame url st) as Hstart. cbv zeta in Hstart.
  unfold handleSend. destruct (handleSend_start url st) as [st1 [p|]]; [|done].
  pose proof (handleSend_finish_frame p r st1) as (_ & _ & _ & -> & -> & ->). done.
Qed.

Lemma handleSend_growth url r st :
  ∃ suffix added,
    chatHistory (handleSend url r st) = chatHistory st ++ suffix
    ∧ messages (handleSend url r st) = messages st ++ added
    ∧ (length suffix ≤ length added)%nat.
Proof.
  destruct (image st) as [f|] eqn:Himg.
  - pose proof (handleSend_start_image url st f Himg) as (st1 & Hstart & Hh & _ & Hm).
    unfold handleSend. rewrite Hstart. cbn [handleSend_finish].
    destruct (vision_reply_spec r st1) as (t & -> & -> & _).
    exists [], [mkMessage sender_user (JStr (input st)) (Some (url (File_blob f))); ai_message t].
    rewrite Hh, Hm, <- app_assoc, app_nil_r. split; [done|]. split; [done | simpl; lia].
  - destruct (String.eqb_spec (input st) "") as [Hin | Hin].
    + exists [], []. unfold handleSend, handleSend_start. rewrite Hin, Himg. simpl.
      by rewrite !app_nil_r.
    + pose proof (handleSend_start_text url st Himg Hin) as (st1 & Hstart & Hh & Hm).
      unfold handleSend. rewrite Hstart. unfold handleSend_finish.
      destruct (await_json r ≫= _) as [[t c] | e];
        cbn [messages chatHistory setIsLoading setChatHistory setMessages];
        rewrite Hm, ?Hh, <- !app_assoc; eexists _, _;
        (split; [reflexivity|]; split; [reflexivity | simpl; lia]).
Qed.

Lemma vision_reply_frame r st :
  input (vision_reply r st) = input st ∧ image (vision_reply r st) = image st
  ∧ screenStream (vision_reply r st) = screenStream st
  ∧ isScreenSharing (vision_reply r st) = isScreenSharing st
  ∧ videoRef (vision_reply r st) = videoRef st.
Proof. unfold vision_reply. destruct (await_json r ≫= _); done. Qed.

(** X17.  Clear chat resets the two sequences and nothing else: the text box,
    the pending image, the loading flag and the screen share are as before,
    every storage key other than the page's two is untouched, and clearing a
    second time changes nothing further. *)
Theorem handleClearChat_frame st (ls : gmap string Stored) :
  let st' := (handleClearChat st ls).1 in
  let ls' := (handleClearChat st ls).2 in
  (input st' = input st ∧ image st' = image st ∧ isLoading st' = isLoading st
   ∧ screenStream st' = screenStream st ∧ isScreenSharing st' = isScreenSharing st
   ∧ videoRef st' = videoRef st)
  ∧ (∀ k, k ≠ key_messages → k ≠ key_chatHistory → ls' !! k = ls !! k)
  ∧ handleClearChat st' ls' = (st', ls').
Proof.
  cbv zeta. unfold handleClearChat. cbn [fst snd]. split; [done|]. split.
  - intros k Hk1 Hk2. by rewrite !lookup_delete_ne.
  - f_equal. apply map_eq. intros k.
    destruct (decide (k = key_chatHistory)) as [-> | Hk1]; [by rewrite !lookup_delete_eq|].
    rewrite !(lookup_delete_ne _ key_chatHistory) by done.
    destruct (decide (k = key_messages)) as [-> | Hk2]; [by rewrite !lookup_delete_eq|].
    by rewrite !lookup_delete_ne by done.
Qed.

(** ** The page: stopping a share *)

(** X19.  Pressing stop while nothing is shared calls [stop()] on no track, and
    pressing stop twice is the same as pressing it once: the second press
    finds no stream, stops nothing and leaves the page as the first left
    it. *)
Theorem stop_clicked_idempotent st (m : Media) :
  (screenStream st = None → (stop_clicked st m).2 = m)
  ∧ stop_clicked (stop_clicked st m).1 (stop_clicked st m).2 = stop_clicked st m.
Proof.
  split.
  - intros Hs. unfold stop_clicked, handleStopScreenShare. by rewrite Hs.
  - destruct st as [ms inp img ld ss sh hist vr].
    unfold stop_clicked, handleStopScreenShare, render. cbn.
    destruct ss, vr; reflexivity.
Qed.

(** X20.  Pressing stop on a stream of several distinct tracks calls [stop()]
    exactly once on each of them, so each ends with one more release than
    before and is ended, and calls it on no other track. *)
Theorem stop_button_releases_every_track st stream (m : Media) :
  screenStream st = Some stream →
  NoDup (track_id <$> getTracks stream) →
  (∀ t, t ∈ getTracks stream →
     stop_calls (track_id t) (stop_clicked st m).2 = S (stop_calls (track_id t) m)
     ∧ release_count (track_id t) (stop_clicked st m).2 = S (release_count (track_id t) m)
     ∧ ended (track_id t) (stop_clicked st m).2 = true)
  ∧ (∀ id, id ∉ track_id <$> getTracks stream →
     stop_calls id (stop_clicked st m).2 = stop_calls id m
     ∧ release_count id (stop_clicked st m).2 = release_count id m).
Proof.
  intros Hs Hnd.
  assert ((stop_clicked st m).2 = m ++ ((λ t, stop_called (track_id t)) <$> getTracks stream))
    as ->.
  { unfold stop_clicked, handleStopScreenShare. rewrite Hs. cbn [snd].
    apply foldl_track_stop. }
  split.
  - intros t Ht.
    rewrite stop_calls_app, release_count_app, stop_calls_of_stops, release_count_stop_calls.
    rewrite (tracks_with_id_unique _ _ Hnd Ht).
    split; [lia|]. split; [lia|]. apply ended_true.
    rewrite release_count_app, release_count_stop_calls, (tracks_with_id_unique _ _ Hnd Ht).
    lia.
  - intros id Hid.
    rewrite stop_calls_app, release_count_app, stop_calls_of_stops, release_count_stop_calls.
    rewrite (tracks_with_id_absent _ _ Hid). simpl. lia.
Qed.

Lemma stop_button_releases_every_track_witness :
  release_count 7 (stop_clicked (setScreenStream (Some two_track_stream) initial_state) []).2
  = 1%nat
  ∧ release_count 8 (stop_clicked (setScreenStream (Some two_track_stream) initial_state) []).2
    = 1%nat.
Proof.
  assert (NoDup (track_id <$> getTracks two_track_stream)) as Hnd.
  { simpl. apply NoDup_cons. split; [|apply NoDup_singleton].
    intros H%list_elem_of_singleton. discriminate H. }
  destruct (stop_button_releases_every_track
              (setScreenStream (Some two_track_stream) initial_state) two_track_stream []
              eq_refl Hnd) as [Hin _].
  split.
  - apply (Hin (mkTrack 7 video_track)). apply elem_of_cons. by left.
  - apply (Hin (mkTrack 8 audio_track)). apply elem_of_cons. right.
    by apply list_elem_of_singleton.
Defined.

(** ** The page: what every sequence of actions keeps *)

Lemma act_growth a st :
  (a = press_clear ∧ chatHistory (act a st) = [system_turn] ∧ messages (act a st) = [])
  ∨ ∃ suffix added,
      chatHistory (act a st) = chatHistory st ++ suffix
      ∧ messages (act a st) = messages st ++ added
      ∧ (length suffix ≤ length added)%nat.
Proof.
  unfold act.
  match goal with |- context [render ?s] =>
    destruct (render_frame s) as (-> & -> & _) end.
  destruct a as [s | files | | url r | | gdm | | | url ctx blob r];
    try (right; exists [], []; by rewrite !app_nil_r).
  - right. exists [], []. rewrite !app_nil_r. by destruct files.
  - right. apply handleSend_growth.
  - by left.
  - right. exists [], []. rewrite !app_nil_r.
    unfold handleStartScreenShare. destruct gdm as [stream|]; [|done].
    destruct (videoRef _); by destruct (getVideoTracks stream !! 0%nat).
  - right. exists [], []. rewrite !app_nil_r.
    unfold handleStopScreenShare. cbn [fst]. by destruct (videoRef _).
  - right. exists [], []. rewrite !app_nil_r.
    unfold handleStopScreenShare. cbn [fst]. by destruct (videoRef _).
  - right. unfold handleCaptureScreenShotFromStream, handleCapture_start.
    destruct (videoRef st); [|exists [], []; by rewrite !app_nil_r].
    destruct ctx; [|exists [], []; by rewrite !app_nil_r].
    destruct blob as [b|]; [|exists [], []; by rewrite !app_nil_r]. cbn [negb].
    match goal with |- context [vision_reply r ?s] =>
      destruct (vision_reply_spec r s) as (t & -> & -> & _) end.
    cbn [messages chatHistory setMessages setIsLoading].
    eexists [], _. rewrite app_nil_r, <- app_assoc.
    split; [done|]. split; [reflexivity | simpl; lia].
Qed.

Lemma act_sharing a st :
  (screenStream st = None ↔ isScreenSharing st = false) →
  sharing_consistent (act a st).
Proof.
  intros Hc. unfold act, sharing_consistent.
  match goal with |- context [render ?s] =>
    destruct (render_frame s) as (_ & _ & _ & _ & _ & -> & ->);
    split; [|apply render_videoRef] end.
  destruct a as [s | files | | url r | | gdm | | | url ctx blob r]; try done.
  - by destruct files.
  - by destruct (handleSend_share_frame url r st) as (-> & -> & _).
  - unfold handleStartScreenShare. destruct gdm as [stream|]; [|done].
    destruct (videoRef _); by destruct (getVideoTracks stream !! 0%nat).
  - unfold handleStopScreenShare. cbn [fst]. by destruct (videoRef _).
  - unfold handleStopScreenShare. cbn [fst]. by destruct (videoRef _).
  - unfold handleCaptureScreenShotFromStream, handleCapture_start.
    destruct (videoRef st); [|done]. destruct ctx; [|done]. destruct blob; [|done].
    cbn [negb].
    match goal with |- context [vision_reply r ?s] =>
      by destruct (vision_reply_frame r s) as (_ & _ & -> & -> & _) end.
Qed.

Lemma run_snoc actions a st : run (actions ++ [a]) st = act a (run actions st).
Proof. unfold run. by rewrite foldl_app. Qed.

Lemma act_idle a st : isLoading st = false → isLoading (act a st) = false.
Proof.
  intros Hl. unfold act.
  match goal with |- context [render ?s] =>
    destruct (render_frame s) as (_ & _ & _ & _ & -> & _) end.
  destruct a as [s | files | | url r | | gdm | | | url ctx blob r]; try done.
  - by destruct files.
  - unfold handleSend. destruct (handleSend_start url st) as [st1 [p|]] eqn:Hstart.
    + apply handleSend_finish_frame.
    + revert Hstart. unfold handleSend_start.
      destruct (String.eqb (input st) "" && _); [by intros [= <-]|].
      by destruct (image st).
  - unfold handleStartScreenShare. destruct gdm as [stream|]; [|done].
    destruct (videoRef _); by destruct (getVideoTracks stream !! 0%nat).
  - unfold handleStopScreenShare. cbn [fst]. by destruct (videoRef _).
  - unfold handleStopScreenShare. cbn [fst]. by destruct (videoRef _).
  - unfold handleCaptureScreenShotFromStream, handleCapture_start.
    destruct (videoRef st); [|done]. destruct ctx; [|done]. destruct blob; [|done].
    cbn [negb].
    match goal with |- context [vision_reply r ?s] =>
      by destruct (vision_reply_spec r s) as (_ & _ & _ & ->) end.
Qed.

(** X21.  Apart from Clear chat, nothing the user or the browser does removes
    or rewrites an earlier message or turn: over any sequence of other
    actions the transcript and the history only grow by appending, and the
    history never grows by more entries than the transcript. *)
Theorem run_is_append_only actions st :
  Forall (λ a, a ≠ press_clear) actions →
  ∃ suffix added,
    chatHistory (run actions st) = chatHistory st ++ suffix
    ∧ messages (run actions st) = messages st ++ added
    ∧ (length suffix ≤ length added)%nat.
Proof.
  induction actions as [|a actions IH] using rev_ind; intros Hall.
  - exists [], []. by rewrite !app_nil_r.
  - apply Forall_app in Hall as [Hall Ha]. apply Forall_inv in Ha.
    destruct (IH Hall) as (suffix & added & Hh & Hm & Hlen).
    rewrite run_snoc.
    destruct (act_growth a (run actions st)) as [[-> _] | (s' & a' & Hh' & Hm' & Hlen')];
      [done|].
    exists (suffix ++ s'), (added ++ a').
    rewrite Hh', Hm', Hh, Hm, <- !app_assoc. split; [done|]. split; [done|].
    rewrite !length_app. lia.
Qed.

Lemma run_is_append_only_witness :
  ∃ suffix added,
    chatHistory (run sample_session initial_state) = [system_turn] ++ suffix
    ∧ messages (run sample_session initial_state) = [] ++ added
    ∧ (length suffix ≤ length added)%nat.
Proof.
  apply (run_is_append_only sample_session initial_state).
  repeat (apply Forall_cons; split; [discriminate|]). apply Forall_nil_2.
Defined.

(** X22.  The history always begins with the fixed system turn: if it does
    before a sequence of actions, it does after it, whatever the actions and
    however their requests end. *)
Theorem run_keeps_system_turn_first actions st :
  starts_with_system_turn st → starts_with_system_turn (run actions st).
Proof.
  unfold starts_with_system_turn.
  induction actions as [|a actions IH] using rev_ind; intros Hst; [done|].
  rewrite run_snoc. destruct (IH Hst) as [rest Hrest].
  destruct (act_growth a (run actions st)) as [(_ & -> & _) | (s' & _ & -> & _)].
  - by exists [].
  - rewrite Hrest. by exists (rest ++ s').
Qed.

Lemma run_keeps_system_turn_first_witness :
  starts_with_system_turn (run sample_session initial_state).
Proof.
  apply (run_keeps_system_turn_first sample_session initial_state). by exists [].
Defined.

(** X23.  The history is never longer than the transcript plus one (the system
    turn): if that holds before a sequence of actions, it holds after it.
    Image turns and failed replies make the transcript the longer one. *)
Theorem run_history_bounded_by_transcript actions st :
  (length (chatHistory st) ≤ length (messages st) + 1)%nat →
  (length (chatHistory (run actions st)) ≤ length (messages (run actions st)) + 1)%nat.
Proof.
  induction actions as [|a actions IH] using rev_ind; intros Hst; [done|].
  rewrite run_snoc. specialize (IH Hst).
  destruct (act_growth a (run actions st))
    as [(_ & -> & ->) | (s' & a' & -> & -> & Hlen)].
  - simpl. lia.
  - rewrite !length_app. lia.
Qed.

Lemma run_history_bounded_by_transcript_witness :
  (length (chatHistory (run sample_session initial_state))
   ≤ length (messages (run sample_session initial_state)) + 1)%nat.
Proof.
  apply (run_history_bounded_by_transcript sample_session initial_state). simpl. lia.
Defined.

(** X24.  The stream, the sharing flag and the video element go together: after
    any sequence of actions there is a stream exactly when the sharing flag
    is up, and a video element exactly when the sharing flag is up; and when
    no request was out before, none is out after (the loading flag is
    down). *)
Theorem run_keeps_sharing_consistent actions st :
  sharing_consistent st → isLoading st = false →
  sharing_consistent (run actions st) ∧ isLoading (run actions st) = false.
Proof.
  induction actions as [|a actions IH] using rev_ind; intros Hst Hl; [done|].
  rewrite run_snoc. destruct (IH Hst Hl) as [[Hc _] Hl']. split.
  - by apply act_sharing.
  - by apply act_idle.
Qed.

Lemma run_keeps_sharing_consistent_witness :
  sharing_consistent (run sample_session initial_state)
  ∧ isLoading (run sample_session initial_state) = false.
Proof.
  apply (run_keeps_sharing_consistent sample_session initial_state); [|reflexivity].
  split; split; reflexivity.
Defined.

(** X25.  Choosing files keeps the first one as the pending image and ignores
    an empty choice; a send then posts exactly that file as [image], shows
    its object URL beside the user's message, and empties the selection at
    once. *)
Theorem chosen_file_is_sent url f files st :
  handleImageChange [] st = st
  ∧ image (handleImageChange (f :: files) st) = Some f
  ∧ ∃ st1,
      handleSend_start url (handleImageChange (f :: files) st)
      = (st1, Some (pending_vision
                      [("image", FFile f);
                       ("prompt", FString (input_or (input st) default_prompt))]))
      ∧ image st1 = None
      ∧ messages st1 =
          messages st ++ [mkMessage sender_user (JStr (input st)) (Some (url (File_blob f)))].
Proof.
  split; [done|]. split; [done|].
  destruct (handleSend_start_image url (handleImageChange (f :: files) st) f eq_refl)
    as (st1 & Hstart & _ & Himg & Hm).
  exists st1. split; [exact Hstart|]. split; [exact Himg | exact Hm].
Qed.

(** ** The placeholder page *)

(** X26.  In the placeholder page a text-only send issues no request: it
    starts a timer, and when the timer fires the transcript has gained the
    user's message followed by the canned reply quoting the text that was
    sent; the text box is empty and the loading flag is down. *)
Theorem placeholder_text_send_echoes url r st :
  PlaceholderPage.image st = None → PlaceholderPage.input st ≠ "" →
  (PlaceholderPage.handleSend_start url st).2
  = Some (PlaceholderPage.pending_timer (PlaceholderPage.input st))
  ∧ PlaceholderPage.messages (PlaceholderPage.handleSend url r st) =
      PlaceholderPage.messages st ++
        [mkMessage sender_user (JStr (PlaceholderPage.input st)) None;
         ai_message
           (JStr ("AI: (Chat response to " +:+ PlaceholderPage.double_quote
                  +:+ PlaceholderPage.input st +:+ PlaceholderPage.double_quote +:+ ")"))]
  ∧ PlaceholderPage.input (PlaceholderPage.handleSend url r st) = ""
  ∧ PlaceholderPage.isLoading (PlaceholderPage.handleSend url r st) = false.
Proof.
  intros Himg Hin.
  unfold PlaceholderPage.handleSend, PlaceholderPage.handleSend_start. rewrite Himg.
  destruct (String.eqb_spec (PlaceholderPage.input st) ""); [done|]. cbn.
  by rewrite <- app_assoc.
Qed.

Lemma placeholder_text_send_echoes_witness :
  PlaceholderPage.messages
    (PlaceholderPage.handleSend (λ _, "blob:1") (fetch_rejected undefined)
       (PlaceholderPage.setInput "hello" PlaceholderPage.initial_state))
  = [mkMessage sender_user (JStr "hello") None;
     ai_message
       (JStr ("AI: (Chat response to " +:+ PlaceholderPage.double_quote
              +:+ "hello" +:+ PlaceholderPage.double_quote +:+ ")"))].
Proof.
  apply (placeholder_text_send_echoes (λ _, "blob:1") (fetch_rejected undefined)
           (PlaceholderPage.setInput "hello" PlaceholderPage.initial_state));
    [reflexivity | discriminate].
Defined.

(** X27.  On an image submission, and on a submission with nothing to send,
    the placeholder page and the final page do the same: the same form is
    posted, and whatever the outcome of the request, the transcript, text box,
    pending image and loading flag of the two pages end up equal. *)
Theorem placeholder_agrees_on_image_sends url r st :
  image st ≠ None ∨ input st = "" →
  PlaceholderPage.handleSend url r (placeholder_view st)
  = placeholder_view (handleSend url r st)
  ∧ (∀ fd, (handleSend_start url st).2 = Some (pending_vision fd) ↔
           (PlaceholderPage.handleSend_start url (placeholder_view st)).2
           = Some (PlaceholderPage.pending_vision fd)).
Proof.
  intros Hcase.
  unfold PlaceholderPage.handleSend, PlaceholderPage.handleSend_start,
    handleSend, handleSend_start, placeholder_view.
  cbn [PlaceholderPage.input PlaceholderPage.image].
  destruct (image st) as [f|] eqn:Himg.
  - rewrite andb_false_r. cbn [snd handleSend_finish PlaceholderPage.handleSend_finish].
    split; [|split; intros [= <-]; done].
    unfold vision_reply. destruct (await_json r ≫= _); reflexivity.
  - destruct Hcase as [? | Hin]; [done|]. rewrite Hin. cbn. rewrite Hin, Himg.
    split; [done|]. by split.
Qed.

Lemma placeholder_agrees_on_image_sends_witness :
  PlaceholderPage.messages
    (PlaceholderPage.handleSend (λ _, "blob:1") (fetch_resolved (Normal JNull))
       (placeholder_view (image_send sample_file "what is this?")))
  = messages (handleSend (λ _, "blob:1") (fetch_resolved (Normal JNull))
                (image_send sample_file "what is this?")).
Proof.
  rewrite (proj1 (placeholder_agrees_on_image_sends (λ _, "blob:1")
                    (fetch_resolved (Normal JNull))
                    (image_send sample_file "what is this?")
                    ltac:(left; discriminate))).
  reflexivity.
Defined.

(** ** The page: what the render after a send shows *)

Import Rendering.

Lemma first_invalid_child_app l1 l2 :
  first_invalid_child (l1 ++ l2) = None
  ↔ first_invalid_child l1 = None ∧ first_invalid_child l2 = None.
Proof.
  induction l1 as [|m l1 IH]; simpl.
  - split; [by intros ? | by intros [_ ?]].
  - destruct (valid_child (text m)); [exact IH|]. split; [done | by intros [? _]].
Qed.

Lemma first_invalid_child_snoc msgs m :
  first_invalid_child msgs = None → valid_child (text m) = true →
  first_invalid_child (msgs ++ [m]) = None.
Proof.
  intros Hl Hm. apply first_invalid_child_app. split; [done|]. simpl. by rewrite Hm.
Qed.

Lemma decide_null (j : JSON) : j = JNull ∨ j ≠ JNull.
Proof. destruct j; (by left) || (by right). Qed.

Lemma reply_updater_Some data fallback msgs :
  data ≠ JNull →
  reply_updater data fallback msgs =
    Normal (msgs ++
              [ai_message
                 (or_else (or_value (get_prop data "result") (get_prop data "error"))
                          (JStr fallback))]).
Proof. intros Hd. unfold reply_updater. by rewrite (reply_text_Some _ _ Hd). Qed.

Lemma reply_updater_null fallback msgs :
  reply_updater JNull fallback msgs = Throw null_body_error.
Proof. reflexivity. Qed.

(** A render that shows a state shows the one the handler's setters lead to. *)
Lemma commit_shows_inv p r st st' :
  commit (settle p r) st = shows st' →
  st' = Page.handleSend_finish p r st ∧ renders st'.
Proof.
  unfold commit, renders. destruct p as [fd | newHistory]; cbn [settle].
  - unfold settle_vision, Page.handleSend_finish, vision_reply.
    destruct (await_json r) as [data | e]; cbn [queued history_set run_updaters].
    + unfold reply_updater, mbind, Completion_bind, mret, Completion_ret.
      destruct (reply_text data _) as [t | e]; cbn; [|done].
      destruct (first_invalid_child _) eqn:Hv; [done|]. by intros [= <-].
    + cbn. destruct (first_invalid_child _) eqn:Hv; [done|]. by intros [= <-].
  - unfold settle_chat, Page.handleSend_finish.
    destruct (await_json r) as [data | e].
    + destruct (decide_null data) as [-> | Hd]; [done|].
      rewrite member_Some by done. cbn [queued history_set run_updaters].
      rewrite reply_updater_Some by done.
      unfold mbind at 1, Completion_bind.
      rewrite reply_text_Some by done.
      unfold mbind at 1, Completion_bind.
      rewrite member_Some by done. cbn.
      destruct (first_invalid_child _) eqn:Hv; [done|]. by intros [= <-].
    + cbn. destruct (first_invalid_child _) eqn:Hv; [done|]. by intros [= <-].
Qed.

Lemma rendered_send_agrees url r st st' :
  Rendering.handleSend url r st = shows st' → st' = Page.handleSend url r st.
Proof.
  unfold Rendering.handleSend, Page.handleSend.
  destruct (handleSend_start url st) as [st1 [p|]]; [|by intros [= <-]].
  by intros [-> _]%commit_shows_inv.
Qed.

Lemma rendered_capture_agrees url ctx blob r st st' :
  Rendering.handleCaptureScreenShotFromStream url ctx blob r st = shows st' →
  st' = Page.handleCaptureScreenShotFromStream url ctx blob r st.
Proof.
  unfold Rendering.handleCaptureScreenShotFromStream, Page.handleCaptureScreenShotFromStream.
  destruct (handleCapture_start url ctx blob st) as [st1 [p|]]; [|by intros [= <-]].
  intros H. by apply (commit_shows_inv (pending_vision []) r st1 st') in H as [-> _].
Qed.

(** With a [null] body the reply updater throws when the render runs it,
    whichever path queued it. *)
Lemma commit_null_body p st :
  commit (settle p (fetch_resolved (Normal JNull))) st
  = crashed (updater_threw null_body_error).
Proof. by destruct p. Qed.

(** Away from a [null] body, the render shows the state the handler's setters
    lead to as soon as that state can be drawn. *)
Lemma commit_shows p r st :
  r ≠ fetch_resolved (Normal JNull) →
  renders (Page.handleSend_finish p r st) →
  commit (settle p r) st = shows (Page.handleSend_finish p r st).
Proof.
  intros Hr. unfold commit, renders.
  destruct r as [e | [data | e]]; [by destruct p; cbn; intros -> | | by destruct p; cbn; intros ->].
  destruct (decide_null data) as [-> | Hd]; [done|].
  destruct p as [fd | newHistory]; cbn [settle].
  - cbn [Page.handleSend_finish]. rewrite (vision_reply_resolved _ _ Hd).
    unfold settle_vision.
    cbn [await_json queued history_set run_updaters].
    rewrite (reply_updater_Some _ _ _ Hd). unfold vision_fallback. cbn. by intros ->.
  - rewrite (handleSend_finish_chat_resolved _ _ _ Hd). unfold settle_chat.
    cbn [await_json]. rewrite (member_Some _ _ Hd).
    cbn [queued history_set run_updaters].
    rewrite (reply_updater_Some _ _ _ Hd). unfold chat_fallback. cbn. by intros ->.
Qed.

Lemma valid_child_or_else v fallback :
  (∀ t, v = Some t → valid_child t = true) →
  valid_child (or_else v (JStr fallback)) = true.
Proof.
  intros Hv. destruct v as [t|]; [|done]. simpl.
  destruct (truthy t); [by apply Hv | done].
Qed.

Lemma drawable_outcome_not_null r :
  drawable_outcome r → r ≠ fetch_resolved (Normal JNull).
Proof.
  intros [[[e ->] | [e ->]] | (data & -> & Hd & _)]; [done | done |].
  intros [= ->]. by apply Hd.
Qed.

Lemma finish_renders p r st :
  renders st → drawable_outcome r → renders (Page.handleSend_finish p r st).
Proof.
  unfold renders. intros Hst [[[e ->] | [e ->]] | (data & -> & Hd & Hv)].
  - destruct p; cbn; by apply first_invalid_child_snoc.
  - destruct p; cbn; by apply first_invalid_child_snoc.
  - destruct p as [fd | newHistory].
    + cbn [Page.handleSend_finish]. rewrite (vision_reply_resolved _ _ Hd). cbn.
      apply first_invalid_child_snoc; [done|]. by apply valid_child_or_else.
    + rewrite (handleSend_finish_chat_resolved _ _ _ Hd). cbn.
      apply first_invalid_child_snoc; [done|]. by apply valid_child_or_else.
Qed.

(** The user's own message is always a string. *)
Lemma handleSend_start_renders url st :
  renders st → renders (handleSend_start url st).1.
Proof.
  unfold renders, handleSend_start. intros Hst.
  destruct (_ && _); [done|].
  destruct (image st); cbn; by apply first_invalid_child_snoc.
Qed.

Lemma handleCapture_start_renders url ctx blob st :
  renders st → renders (handleCapture_start url ctx blob st).1.
Proof.
  unfold renders, handleCapture_start. intros Hst.
  destruct (videoRef st); [|done]. destruct (negb ctx); [done|].
  destruct blob; [|done]. cbn. by apply first_invalid_child_snoc.
Qed.

(** On a transcript that can be drawn, a request with a drawable outcome is
    rendered, and shows what the handler's setters lead to. *)
Lemma rendered_send_total url r st :
  renders st → drawable_outcome r →
  Rendering.handleSend url r st = shows (Page.handleSend url r st).
Proof.
  intros Hst Hr. pose proof (handleSend_start_renders url st Hst) as H1.
  unfold Rendering.handleSend, Page.handleSend.
  destruct (handleSend_start url st) as [st1 [p|]]; [|done].
  apply commit_shows; [by apply drawable_outcome_not_null | by apply finish_renders].
Qed.

Lemma rendered_capture_total url ctx blob r st :
  renders st → drawable_outcome r →
  Rendering.handleCaptureScreenShotFromStream url ctx blob r st
  = shows (Page.handleCaptureScreenShotFromStream url ctx blob r st).
Proof.
  intros Hst Hr. pose proof (handleCapture_start_renders url ctx blob st Hst) as H1.
  unfold Rendering.handleCaptureScreenShotFromStream,
    Page.handleCaptureScreenShotFromStream.
  destruct (handleCapture_start url ctx blob st) as [st1 [p|]]; [|done].
  apply (commit_shows (pending_vision []) r st1);
    [by apply drawable_outcome_not_null | by apply (finish_renders (pending_vision []))].
Qed.



(** C10, as amended.  When a text-only send resolves with a JSON body other
    than [null] that lacks a [result] field, and whose [error] field is absent
    or a string, the page shows the outcome: an assistant turn with an empty
    string as content is still appended to the history, which grows to length
    [n + 2]; the text displayed is the body's [error] string when that is not
    empty, and the fixed fallback "Sorry, I couldn't generate a response."
    when [error] is absent or empty. *)
Theorem text_send_without_result url st n data :
  image st = None → input st ≠ "" → length (chatHistory st) = n →
  renders st →
  data ≠ JNull → get_prop data "result" = None →
  string_or_absent (get_prop data "error") →
  ∃ st' shown,
    Rendering.handleSend url (fetch_resolved (Normal data)) st = shows st'
    ∧ chatHistory st' =
        chatHistory st ++
          [mkOpenAIMessage role_user (JStr (input st));
           mkOpenAIMessage role_assistant (JStr "")]
    ∧ length (chatHistory st') = (n + 2)%nat
    ∧ messages st' =
        messages st ++ [mkMessage sender_user (JStr (input st)) None; ai_message shown]
    ∧ (∀ e, get_prop data "error" = Some (JStr e) → e ≠ "" → shown = JStr e)
    ∧ (get_prop data "error" = None ∨ get_prop data "error" = Some (JStr "") →
       shown = JStr chat_fallback).
Proof.
  intros Himg Hin Hn Hst Hd Hres Herr.
  assert (drawable_outcome (fetch_resolved (Normal data))) as Hr.
  { right. exists data. split; [done|]. split; [done|].
    rewrite Hres. unfold or_value. simpl.
    intros t Ht. destruct Herr as [Hnone | [s Hs]]; [congruence|].
    rewrite Hs in Ht. by injection Ht as <-. }
  exists (Page.handleSend url (fetch_resolved (Normal data)) st),
         (or_else (get_prop data "error") (JStr chat_fallback)).
  split; [by apply rendered_send_total|].
  destruct (handleSend_start_text url st Himg Hin) as (st1 & Hstart & Hh & Hm).
  unfold Page.handleSend. rewrite Hstart, (handleSend_finish_chat_resolved _ _ _ Hd).
  cbn [chatHistory messages setIsLoading setChatHistory setMessages].
  rewrite Hres, Hm, <- !app_assoc. unfold or_value. simpl.
  split; [done|]. split; [rewrite length_app; simpl; lia|]. split; [done|]. split.
  - intros e -> He. apply or_else_Some_truthy. by apply truthy_JStr.
  - by intros [-> | ->].
Qed.

Lemma text_send_without_result_witness :
  ∃ st',
    Rendering.handleSend (λ _, "blob:1")
      (fetch_resolved (Normal (JObj [("error", JStr "Connection error.")]))) first_send
    = shows st'
    ∧ chatHistory st' =
        [system_turn;
         mkOpenAIMessage role_user (JStr "printer not working");
         mkOpenAIMessage role_assistant (JStr "")]
    ∧ messages st' =
        [mkMessage sender_user (JStr "printer not working") None;
         ai_message (JStr "Connection error.")].
Proof.
  destruct (text_send_without_result (λ _, "blob:1") first_send 1
              (JObj [("error", JStr "Connection error.")])
              eq_refl ltac:(discriminate) eq_refl eq_refl ltac:(discriminate) eq_refl
              ltac:(right; by eexists))
    as (st' & shown & Hshows & Hhist & _ & Hmsgs & Hshown & _).
  exists st'. split; [exact Hshows|]. split; [exact Hhist|].
  rewrite Hmsgs, (Hshown "Connection error." eq_refl ltac:(discriminate)). reflexivity.
Defined.

(** An [error] that is an object is no text the page can draw: the render
    that follows throws on [{msg.text}] and nothing is shown. *)
Example text_send_object_error_crashes :
  Rendering.handleSend (λ _, "blob:1")
    (fetch_resolved (Normal (JObj [("error", JObj [("code", JNum 1)])]))) first_send
  = crashed (invalid_child (JObj [("code", JNum 1)])).
Proof. reflexivity. Qed.

(** X7.  A submission clears the text box and the pending image and raises the
    loading flag at once, before the request settles.  Whenever the page shows
    the outcome of the request, the loading flag is down again, the text box
    and pending image are still empty, and the screen-sharing state is what it
    was; and the page does show the outcome when the transcript could be drawn
    before and the outcome is a drawable one. *)
Theorem send_leaves_controls_idle url r st :
  input st ≠ "" ∨ image st ≠ None →
  let st1 := (handleSend_start url st).1 in
  (isLoading st1 = true ∧ input st1 = "" ∧ image st1 = None)
  ∧ (∀ st', Rendering.handleSend url r st = shows st' →
       (isLoading st' = false ∧ input st' = "" ∧ image st' = None)
       ∧ (screenStream st' = screenStream st ∧ isScreenSharing st' = isScreenSharing st
          ∧ videoRef st' = videoRef st))
  ∧ (renders st → drawable_outcome r →
     ∃ st', Rendering.handleSend url r st = shows st').
Proof.
  intros Hsome. cbv zeta.
  pose proof (handleSend_start_frame url st) as Hframe. cbv zeta in Hframe.
  assert (∃ st1 p, handleSend_start url st = (st1, Some p)
            ∧ isLoading st1 = true ∧ input st1 = "" ∧ image st1 = None)
    as (st1 & p & Hstart & Hl & Hi & Him).
  { unfold handleSend_start.
    destruct (String.eqb_spec (input st) "") as [Hin | Hin];
      destruct (image st) as [f|] eqn:Himg; simpl;
      try (by eexists _, _); by destruct Hsome. }
  split; [by rewrite Hstart|]. split.
  - intros st' ->%rendered_send_agrees.
    unfold Page.handleSend. rewrite Hstart in *. cbn [fst] in *.
    pose proof (handleSend_finish_frame p r st1) as Hfin. cbv zeta in Hfin.
    destruct Hfin as (Hl' & Hi' & Him' & Hs' & Hf' & Hv').
    destruct Hframe as (Hs & Hf & Hv).
    rewrite Hl', Hi', Him', Hs', Hf', Hv'. done.
  - intros Hst Hr. eexists. by apply rendered_send_total.
Qed.

Lemma send_leaves_controls_idle_witness :
  isLoading (handleSend_start (λ _, "blob:1") first_send).1 = true
  ∧ ∃ st', Rendering.handleSend (λ _, "blob:1") (fetch_rejected undefined) first_send
           = shows st'
      ∧ isLoading st' = false ∧ input st' = "".
Proof.
  destruct (send_leaves_controls_idle (λ _, "blob:1") (fetch_rejected undefined) first_send
              ltac:(left; discriminate)) as ((H1 & _) & Hidle & Hshows).
  split; [exact H1|].
  destruct (Hshows eq_refl ltac:(left; left; by eexists)) as [st' Hst'].
  exists st'. split; [exact Hst'|].
  destruct (Hidle st' Hst') as ((H2 & H3 & _) & _). by split.
Defined.

(** X8.  When the request is rejected on the page's side (the fetch rejects,
    or the body is no JSON) and the transcript could be drawn before, the page
    shows one fixed apology, the one of the path taken, after the user's
    message; a text send then keeps its user turn in the history and gains no
    assistant turn, an image send leaves the history alone.  A body that is
    [null] is no such failure: on the text path too the reply updater is
    queued before [data.result] is read in place, and the render that runs it
    throws. *)
Theorem send_failure_shows_fixed_text url st :
  (∀ r, rejected_on_page r → renders st →
     (image st = None → input st ≠ "" →
        ∃ st', Rendering.handleSend url r st = shows st'
          ∧ messages st' =
              messages st ++ [mkMessage sender_user (JStr (input st)) None;
                              ai_message chat_error_text]
          ∧ chatHistory st' =
              chatHistory st ++ [mkOpenAIMessage role_user (JStr (input st))])
     ∧ (∀ f, image st = Some f →
        ∃ st', Rendering.handleSend url r st = shows st'
          ∧ messages st' =
              messages st ++
                [mkMessage sender_user (JStr (input st)) (Some (url (File_blob f)));
                 ai_message vision_error_text]
          ∧ chatHistory st' = chatHistory st))
  ∧ (image st = None → input st ≠ "" →
     Rendering.handleSend url (fetch_resolved (Normal JNull)) st
     = crashed (updater_threw null_body_error)).
Proof.
  split.
  - intros r Hrej Hst.
    assert (∃ e, await_json r = Throw e) as [e He].
    { destruct Hrej as [[e ->] | [e ->]]; by exists e. }
    split.
    + intros Himg Hin. eexists. split; [apply rendered_send_total; [done | by left]|].
      destruct (handleSend_start_text url st Himg Hin) as (st1 & Hstart & Hh & Hm).
      unfold Page.handleSend. rewrite Hstart.
      rewrite (handleSend_finish_chat_failed _ _ e) by by left.
      cbn [messages chatHistory setIsLoading setMessages]. by rewrite Hm, Hh, <- app_assoc.
    + intros f Himg. eexists. split; [apply rendered_send_total; [done | by left]|].
      destruct (handleSend_start_image url st f Himg) as (st1 & Hstart & Hh & _ & Hm).
      unfold Page.handleSend. rewrite Hstart. cbn [Page.handleSend_finish].
      unfold vision_reply. rewrite He.
      cbn [messages chatHistory setIsLoading setMessages mbind Completion_bind].
      by rewrite Hm, Hh, <- app_assoc.
  - intros Himg Hin.
    destruct (handleSend_start_text url st Himg Hin) as (st1 & Hstart & _).
    unfold Rendering.handleSend. rewrite Hstart. apply commit_null_body.
Qed.

Lemma send_failure_shows_fixed_text_witness :
  (∃ st', Rendering.handleSend (λ _, "blob:1") (fetch_rejected (Error "Failed to fetch"))
            first_send = shows st'
     ∧ messages st' =
         [mkMessage sender_user (JStr "printer not working") None;
          ai_message chat_error_text])
  ∧ Rendering.handleSend (λ _, "blob:1") (fetch_resolved (Normal JNull)) first_send
    = crashed (updater_threw null_body_error).
Proof.
  pose proof (send_failure_shows_fixed_text (λ _, "blob:1") first_send) as [Hrej Hnull].
  split.
  - destruct (proj1 (Hrej (fetch_rejected (Error "Failed to fetch"))
                       ltac:(left; by eexists) eq_refl)
                eq_refl ltac:(discriminate)) as (st' & Hshows & Hmsgs & _).
    exists st'. by split.
  - apply Hnull; [reflexivity | discriminate].
Defined.

(** X18.  Capturing a frame does nothing when there is no video element, no
    2D canvas context or no blob.  Otherwise, whenever the page shows the
    outcome, the user's message (the typed text, or "(Screenshot from screen
    share)") and exactly one reply were appended, and, unlike a send, the
    text box and the pending image are as they were; the history and the
    screen share are untouched and the loading flag is down.  The page does
    show the outcome when the transcript could be drawn before and the
    outcome is a drawable one. *)
Theorem capture_frame url ctx blob r st :
  (videoRef st = None ∨ ctx = false ∨ blob = None →
   Rendering.handleCaptureScreenShotFromStream url ctx blob r st = shows st)
  ∧ (∀ b st', videoRef st ≠ None → ctx = true → blob = Some b →
     Rendering.handleCaptureScreenShotFromStream url ctx blob r st = shows st' →
     (∃ t, messages st' =
             messages st ++
               [mkMessage sender_user
                  (JStr (input_or (input st) "(Screenshot from screen share)"))
                  (Some (url b));
                ai_message t])
     ∧ input st' = input st ∧ image st' = image st
     ∧ chatHistory st' = chatHistory st
     ∧ isLoading st' = false
     ∧ screenStream st' = screenStream st ∧ isScreenSharing st' = isScreenSharing st
     ∧ videoRef st' = videoRef st)
  ∧ (renders st → drawable_outcome r →
     ∃ st', Rendering.handleCaptureScreenShotFromStream url ctx blob r st = shows st').
Proof.
  split; [|split].
  - unfold Rendering.handleCaptureScreenShotFromStream, handleCapture_start.
    intros [-> | [-> | ->]]; [done | | ].
    + by destruct (videoRef st).
    + destruct (videoRef st); [|done]. by destruct ctx.
  - intros b st' Hv -> -> ->%rendered_capture_agrees.
    unfold Page.handleCaptureScreenShotFromStream, handleCapture_start.
    destruct (videoRef st) as [v|] eqn:Hvr; [|done]. cbn [negb].
    set (st1 := setMessages _ (setIsLoading true st)).
    destruct (vision_reply_spec r st1) as (t & Hm & Hh & Hl).
    destruct (vision_reply_frame r st1) as (Hi & Him & Hs & Hf & Hvr').
    rewrite Hm, Hh, Hl, Hi, Him, Hs, Hf, Hvr'. subst st1.
    cbn [messages setMessages setIsLoading input image chatHistory screenStream
         isScreenSharing videoRef].
    rewrite <- app_assoc. split; [by exists t|]. done.
  - intros Hst Hr. eexists. by apply rendered_capture_total.
Qed.

Lemma capture_frame_witness :
  ∃ st',
    Rendering.handleCaptureScreenShotFromStream (λ _, "blob:2") true (Some sample_blob)
      (fetch_rejected undefined) (setInput "look at this" sharing_state) = shows st'
    ∧ input st' = "look at this".
Proof.
  pose proof (capture_frame (λ _, "blob:2") true (Some sample_blob)
                (fetch_rejected undefined) (setInput "look at this" sharing_state))
    as (_ & Hframe & Hshows).
  destruct (Hshows eq_refl ltac:(left; left; by eexists)) as [st' Hst'].
  exists st'. split; [exact Hst'|].
  by destruct (Hframe sample_blob st' ltac:(discriminate) eq_refl eq_refl Hst')
    as (_ & Hin & _).
Defined.
